(** * trakt: the error taxonomy (trakt/errors.py) and the memoized entry
    points (trakt/core.py)

    A shallow embedding of the two modules and the properties their
    specification states about them.

    Conventions of the embedding.
    - A computation that may raise is a [result]: [Ok v] or [Raise e], with
      [e] the class of the exception.  [try ... except C] is [try_except].
    - The value of an HTTP header is a [string]: the transport decodes header
      lines as latin-1, one character per byte.  Any other text (a response
      body, a decoded JSON string) is a [ustr], a list of code points.
    - The interpreter's resource guards (recursion limit, the length limit on
      int/str conversion, memory) are not modelled: the builtins are the
      mathematical functions their documentation describes. *)

From Stdlib Require Import ZArith NArith List String Ascii Bool Lia.
From stdpp Require Import gmap strings.

Local Open Scope Z_scope.
Local Open Scope string_scope.

(** ** The fragment of the Python runtime the two modules rely on *)

Module Py.

(** Classes of the exceptions that the modelled code can raise.
    [RecursionError] is what [Json.loads] would raise if its budget of calls
    ran out, which it never does ([JsonFacts.loads_raises]). *)
Inductive exn : Set :=
| AttributeError
| KeyError
| TypeError
| ValueError
| JSONDecodeError
| RecursionError.

(** [json.JSONDecodeError] derives from [ValueError]; the others derive
    from [Exception] directly (or through LookupError and RuntimeError,
    which are not listed). *)
Definition exn_base (c : exn) : option exn :=
  match c with
  | JSONDecodeError => Some ValueError
  | _ => None
  end.

Definition exn_eqb (a b : exn) : bool :=
  match a, b with
  | AttributeError, AttributeError
  | KeyError, KeyError
  | TypeError, TypeError
  | ValueError, ValueError
  | JSONDecodeError, JSONDecodeError
  | RecursionError, RecursionError => true
  | _, _ => false
  end.

(** [issubclass e c], for the handler of an [except c] clause. *)
Definition issubclass (e c : exn) : bool :=
  exn_eqb e c ||
  match exn_base e with
  | Some b => exn_eqb b c
  | None => false
  end.

Inductive result (A : Type) : Type :=
| Ok (a : A)
| Raise (e : exn).
Arguments Ok {A} a.
Arguments Raise {A} e.

#[global] Instance result_ret : MRet result := fun A a => Ok a.

#[global] Instance result_bind : MBind result := fun A B k c =>
  match c with
  | Ok a => k a
  | Raise e => Raise e
  end.

#[global] Instance result_fmap : FMap result := fun A B f c =>
  match c with
  | Ok a => Ok (f a)
  | Raise e => Raise e
  end.

(** [try: body  except cls: handler] *)
Definition try_except {A} (body : result A) (cls : exn) (handler : result A)
  : result A :=
  match body with
  | Ok a => Ok a
  | Raise e => if issubclass e cls then handler else Raise e
  end.

(** Text: a sequence of code points. *)
Definition ustr : Type := list N.

Definition ustr_of_string (s : string) : ustr :=
  map N_of_ascii (list_ascii_of_string s).

(** The values [json.loads] builds.  A float is kept as the literal it was
    read from: its binary value is never inspected here. *)
#[warnings="-register-all"]
Inductive object : Type :=
| None_
| Bool (b : bool)
| Int (n : Z)
| Float (literal : ustr)
| Str (s : ustr)
| List_ (items : list object)
| Dict (items : list (ustr * object)).

(** *** int(str), base 10

    Leading and trailing whitespace is dropped, one sign is allowed, and
    the digits may be grouped by single underscores.  In the latin-1 range
    the whitespace is TAB..CR, SPACE, and NEL and NBSP (which int() first
    rewrites to a space); the only decimal digits are 0..9. *)

Definition is_space (c : ascii) : bool :=
  let n := N_of_ascii c in
  ((9 <=? n) && (n <=? 13) || (n =? 32) || (n =? 133) || (n =? 160))%N.

Definition digit_value (c : ascii) : option Z :=
  let n := N_of_ascii c in
  if ((48 <=? n) && (n <=? 57))%N then Some (Z.of_N n - 48) else None.

Definition is_underscore (c : ascii) : bool := (N_of_ascii c =? 95)%N.

Fixpoint lstrip (s : list ascii) : list ascii :=
  match s with
  | c :: s' => if is_space c then lstrip s' else s
  | [] => []
  end.

Definition all_space (s : list ascii) : bool := forallb is_space s.

(** The digits after the sign.  [acc] is the value read so far and [prev]
    says whether the previous character was an underscore (which may
    neither be doubled nor end the digits); the digits end at the first
    character that is neither, and only whitespace may follow. *)
Fixpoint int_digits (s : list ascii) (acc : Z) (prev : bool) : option Z :=
  match s with
  | [] => if prev then None else Some acc
  | c :: s' =>
      match digit_value c with
      | Some d => int_digits s' (10 * acc + d) false
      | None =>
          if is_underscore c then
            if prev then None else int_digits s' acc true
          else if prev then None
          else if all_space s then Some acc else None
      end
  end.

Definition int_unsigned (s : list ascii) : option Z :=
  match s with
  | [] => None
  | c :: _ =>
      match digit_value c with
      | Some _ => int_digits s 0 false
      | None => None
      end
  end.

Definition int_str (s : string) : result Z :=
  let body := lstrip (list_ascii_of_string s) in
  let parsed :=
    match body with
    | "+"%char :: rest => int_unsigned rest
    | "-"%char :: rest => option_map Z.opp (int_unsigned rest)
    | _ => int_unsigned body
    end in
  match parsed with
  | Some n => Ok n
  | None => Raise ValueError
  end.

(** A text of decimal digits, one at least, and the number it writes. *)
Definition is_decimal (s : string) : bool :=
  match list_ascii_of_string s with
  | [] => false
  | l => forallb (fun c => bool_decide (is_Some (digit_value c))) l
  end.

Definition decimal_value (s : string) : Z :=
  fold_left (fun a c => 10 * a + default 0 (digit_value c))
            (list_ascii_of_string s) 0.

(** int(n) of an int is that int. *)
Definition int_int (n : Z) : result Z := Ok n.

End Py.

Import Py.

(** ** json.loads

    The decoder of the standard library with its default options
    (json.decoder and json.scanner): JSONDecoder.decode, scan_once,
    scanstring, JSONArray and JSONObject.  The text is consumed from the
    front, so an index of the source is a suffix here.  Every failure of the
    decoder is a JSONDecodeError, which is [Invalid].  The recursion of
    scan_once through arrays and objects is driven by a budget of calls;
    [Exhausted] says that it ran out, and [decode] hands out a budget that
    no text can use up (see [scan_once_budget]). *)

Module Json.

Local Open Scope N_scope.
Local Open Scope list_scope.

Inductive outcome (A : Type) : Type :=
| Parsed (a : A) (rest : ustr)
| Invalid
| Exhausted.
Arguments Parsed {A} a rest.
Arguments Invalid {A}.
Arguments Exhausted {A}.

(** WHITESPACE: space, TAB, LF, CR. *)
Definition is_ws (c : N) : bool :=
  (c =? 32) || (c =? 9) || (c =? 10) || (c =? 13).

Fixpoint skip_ws (s : ustr) : ustr :=
  match s with
  | c :: s' => if is_ws c then skip_ws s' else s
  | [] => []
  end.

Definition is_digit (c : N) : bool := (48 <=? c) && (c <=? 57).

Definition hex_value (c : N) : option N :=
  if is_digit c then Some (c - 48)
  else if (65 <=? c) && (c <=? 70) then Some (c - 55)
  else if (97 <=? c) && (c <=? 102) then Some (c - 87)
  else None.

(** _decode_uXXXX: four hexadecimal digits. *)
Definition decode_uXXXX (a b c d : N) : option N :=
  match hex_value a, hex_value b, hex_value c, hex_value d with
  | Some x, Some y, Some z, Some w => Some (((x * 16 + y) * 16 + z) * 16 + w)
  | _, _, _, _ => None
  end.

(** BACKSLASH: the one-character escapes. *)
Definition backslash (c : N) : option N :=
  if c =? 34 then Some 34            (* quote *)
  else if c =? 92 then Some 92       (* backslash *)
  else if c =? 47 then Some 47       (* slash *)
  else if c =? 98 then Some 8        (* b *)
  else if c =? 102 then Some 12      (* f *)
  else if c =? 110 then Some 10      (* n *)
  else if c =? 114 then Some 13      (* r *)
  else if c =? 116 then Some 9       (* t *)
  else None.

Definition is_high_surrogate (u : N) : bool := (0xd800 <=? u) && (u <=? 0xdbff).
Definition is_low_surrogate (u : N) : bool := (0xdc00 <=? u) && (u <=? 0xdfff).

Definition join_surrogates (u u2 : N) : N :=
  0x10000 + N.lor (N.shiftl (u - 0xd800) 10) (u2 - 0xdc00).

(** scanstring, strict: [s] starts after the opening quote and [acc] holds
    the characters read so far, last first.  The result is the decoded
    string and the text after the closing quote. *)
Fixpoint scanstring (s : ustr) (acc : ustr) : option (ustr * ustr) :=
  match s with
  | [] => None                                  (* unterminated string *)
  | c :: s1 =>
      if c =? 34 then Some (rev acc, s1)
      else if c =? 92 then
        match s1 with
        | [] => None
        | e :: s2 =>
            if e =? 117 then                   (* \uXXXX *)
              match s2 with
              | a :: b :: h :: d :: s3 =>
                  match decode_uXXXX a b h d with
                  | None => None
                  | Some u =>
                      match s3 with
                      | b1 :: b2 :: a' :: b' :: h' :: d' :: s4 =>
                          if is_high_surrogate u && (b1 =? 92) && (b2 =? 117)
                          then
                            match decode_uXXXX a' b' h' d' with
                            | None => None
                            | Some u2 =>
                                if is_low_surrogate u2
                                then scanstring s4 (join_surrogates u u2 :: acc)
                                else scanstring s3 (u :: acc)
                            end
                          else scanstring s3 (u :: acc)
                      | _ => scanstring s3 (u :: acc)
                      end
                  end
              | _ => None
              end
            else
              match backslash e with
              | Some x => scanstring s2 (x :: acc)
              | None => None                    (* invalid escape *)
              end
        end
      else if c <? 32 then None                 (* control character *)
      else scanstring s1 (c :: acc)
  end.

(** NUMBER_RE, three groups: an integer (an optional minus, then either 0
    or a non-zero digit and any digits), an optional fraction (a dot and
    one digit or more) and an optional exponent (e or E, an optional sign,
    one digit or more). *)
Fixpoint take_digits (s : ustr) : ustr * ustr :=
  match s with
  | c :: s' =>
      if is_digit c then let (ds, r) := take_digits s' in (c :: ds, r)
      else ([], s)
  | [] => ([], [])
  end.

Definition match_integer (s : ustr) : option (ustr * ustr) :=
  let (sign, s1) :=
    match s with
    | c :: s' => if c =? 45 then ([c], s') else ([], s)
    | [] => ([], s)
    end in
  match s1 with
  | c :: s2 =>
      if c =? 48 then Some (sign ++ [c], s2)
      else if is_digit c then
        let (ds, s3) := take_digits s2 in Some (sign ++ c :: ds, s3)
      else None
  | [] => None
  end.

Definition match_frac (s : ustr) : ustr * ustr :=
  match s with
  | c :: s1 =>
      if c =? 46 then
        match take_digits s1 with
        | ([], _) => ([], s)
        | (ds, s2) => (c :: ds, s2)
        end
      else ([], s)
  | [] => ([], s)
  end.

Definition match_exp (s : ustr) : ustr * ustr :=
  match s with
  | c :: s1 =>
      if (c =? 101) || (c =? 69) then
        let (sign, s2) :=
          match s1 with
          | g :: s' => if (g =? 45) || (g =? 43) then ([g], s') else ([], s1)
          | [] => ([], s1)
          end in
        match take_digits s2 with
        | ([], _) => ([], s)
        | (ds, s3) => (c :: sign ++ ds, s3)
        end
      else ([], s)
  | [] => ([], s)
  end.

(** int(integer) on a lexeme of NUMBER_RE's first group. *)
Definition digits_value (ds : ustr) : Z :=
  fold_left (fun acc c => 10 * acc + (Z.of_N c - 48))%Z ds 0%Z.

Definition parse_int (lexeme : ustr) : Z :=
  match lexeme with
  | c :: ds => if c =? 45 then (- digits_value ds)%Z else digits_value lexeme
  | [] => 0%Z
  end.

Definition match_number (s : ustr) : option (object * ustr) :=
  match match_integer s with
  | None => None
  | Some (integer, s1) =>
      let (frac, s2) := match_frac s1 in
      let (exp, s3) := match_exp s2 in
      match frac, exp with
      | [], [] => Some (Int (parse_int integer), s3)
      | _, _ => Some (Float (integer ++ frac ++ exp), s3)
      end
  end.

(** string[idx:idx + len(word)] == word, and the text after it. *)
Fixpoint after_word (word s : ustr) : option ustr :=
  match word, s with
  | [], _ => Some s
  | w :: word', c :: s' => if c =? w then after_word word' s' else None
  | _ :: _, [] => None
  end.

Definition literal (word : string) (v : object) (s : ustr)
  : option (object * ustr) :=
  match after_word (ustr_of_string word) s with
  | Some rest => Some (v, rest)
  | None => None
  end.

Fixpoint ustr_eqb (a b : ustr) : bool :=
  match a, b with
  | [], [] => true
  | x :: a', y :: b' => (x =? y) && ustr_eqb a' b'
  | _, _ => false
  end.

(** d[k] = v on a dict, which keeps its keys in insertion order. *)
Fixpoint dict_set (d : list (ustr * object)) (k : ustr) (v : object)
  : list (ustr * object) :=
  match d with
  | [] => [(k, v)]
  | (k', v') :: d' =>
      if ustr_eqb k' k then (k', v) :: d' else (k', v') :: dict_set d' k v
  end.

(** dict(pairs) *)
Definition dict_of_pairs (pairs : list (ustr * object)) : list (ustr * object) :=
  fold_left (fun d kv => dict_set d (fst kv) (snd kv)) pairs [].

Fixpoint dict_get (d : list (ustr * object)) (k : ustr) : option object :=
  match d with
  | [] => None
  | (k', v) :: d' => if ustr_eqb k' k then Some v else dict_get d' k
  end.

(** scan_once, with JSONArray and JSONObject.  [array_items] and
    [object_items] are the two while loops, entered at the start of a value
    and at the opening quote of a key; [values] and [pairs] are the lists
    the loops append to, last first. *)
Fixpoint scan_once (fuel : nat) (s : ustr) {struct fuel} : outcome object :=
  match fuel with
  | O => Exhausted
  | S fuel' =>
      match s with
      | [] => Invalid
      | c :: s1 =>
          if c =? 34 then
            match scanstring s1 [] with
            | Some (str, rest) => Parsed (Str str) rest
            | None => Invalid
            end
          else if c =? 123 then                 (* JSONObject *)
            match skip_ws s1 with
            | q :: s2 =>
                if q =? 125 then Parsed (Dict []) s2
                else if q =? 34 then object_items fuel' s2 []
                else Invalid
            | [] => Invalid
            end
          else if c =? 91 then                  (* JSONArray *)
            match skip_ws s1 with
            | q :: s2 =>
                if q =? 93 then Parsed (List_ []) s2
                else array_items fuel' (q :: s2) []
            | [] => Invalid
            end
          else
            let constant :=
              match literal "null" None_ s with
              | Some r => Some r
              | None =>
              match literal "true" (Bool true) s with
              | Some r => Some r
              | None =>
              match literal "false" (Bool false) s with
              | Some r => Some r
              | None =>
              match match_number s with
              | Some r => Some r
              | None =>
              match literal "NaN" (Float (ustr_of_string "NaN")) s with
              | Some r => Some r
              | None =>
              match literal "Infinity" (Float (ustr_of_string "Infinity")) s with
              | Some r => Some r
              | None =>
                  literal "-Infinity" (Float (ustr_of_string "-Infinity")) s
              end end end end end end in
            match constant with
            | Some (v, rest) => Parsed v rest
            | None => Invalid
            end
      end
  end

with array_items (fuel : nat) (s : ustr) (values : list object) {struct fuel}
  : outcome object :=
  match fuel with
  | O => Exhausted
  | S fuel' =>
      match scan_once fuel' s with
      | Parsed value rest =>
          match skip_ws rest with
          | c :: rest' =>
              if c =? 93 then Parsed (List_ (rev (value :: values))) rest'
              else if c =? 44
                   then array_items fuel' (skip_ws rest') (value :: values)
                   else Invalid
          | [] => Invalid
          end
      | Invalid => Invalid
      | Exhausted => Exhausted
      end
  end

with object_items (fuel : nat) (s : ustr) (pairs : list (ustr * object))
       {struct fuel} : outcome object :=
  match fuel with
  | O => Exhausted
  | S fuel' =>
      match scanstring s [] with
      | None => Invalid
      | Some (key, s1) =>
          match skip_ws s1 with
          | c :: s2 =>
              if c =? 58 then
                match scan_once fuel' (skip_ws s2) with
                | Parsed value rest =>
                    match skip_ws rest with
                    | d :: rest' =>
                        if d =? 125
                        then Parsed (Dict (dict_of_pairs
                                             (rev ((key, value) :: pairs)))) rest'
                        else if d =? 44 then
                          match skip_ws rest' with
                          | q :: s3 =>
                              if q =? 34
                              then object_items fuel' s3 ((key, value) :: pairs)
                              else Invalid
                          | [] => Invalid
                          end
                        else Invalid
                    | [] => Invalid
                    end
                | Invalid => Invalid
                | Exhausted => Exhausted
                end
              else Invalid
          | [] => Invalid
          end
      end
  end.

(** An outcome that stayed within the budget and, when it is a value, used
    up some of the text [s] it was read from. *)
Definition advances {A} (s : ustr) (o : outcome A) : Prop :=
  match o with
  | Parsed _ rest => (length rest < length s)%nat
  | Invalid => True
  | Exhausted => False
  end.

(** JSONDecoder.decode: one value between optional whitespace. *)
Definition decode (s : ustr) : outcome object :=
  let s0 := skip_ws s in
  match scan_once (2 * length s0 + 1) s0 with
  | Parsed v rest =>
      match skip_ws rest with
      | [] => Parsed v []
      | _ :: _ => Invalid                       (* extra data *)
      end
  | Invalid => Invalid
  | Exhausted => Exhausted
  end.

Definition loads (s : ustr) : result object :=
  match decode s with
  | Parsed v _ => Ok v
  | Invalid => Raise JSONDecodeError
  | Exhausted => Raise RecursionError
  end.

End Json.

(** ** trakt/errors.py *)

Module errors.

(** The response object an error is built from, as far as the module looks
    at it: [response.headers], a mapping from header names to their text,
    and [response.json()], which decodes the text of the body.  The mapping
    is keyed as the module's lookups see it: the HTTP library matches names
    without regard to case, and the module asks for lower-case names. *)
Record Response : Type := {
  headers : gmap string string;
  text : ustr
}.

Definition json (r : Response) : result object := Json.loads (text r).

(** The classes of the module, in the order of their definition. *)
Inductive cls : Set :=
| TraktException
| BadResponseException
| BadRequestException
| OAuthException
| OAuthRefreshException
| ForbiddenException
| NotFoundException
| MethodNotAllowedException
| ConflictException
| ProcessException
| LockedUserAccountException
| RateLimitException
| AccountLimitExceeded
| TraktInternalException
| TraktBadGateway
| TraktUnavailable.

(** The base named in the class statement; [None] for the base class of the
    module, which derives from the builtin Exception. *)
Definition base (c : cls) : option cls :=
  match c with
  | TraktException => None
  | OAuthRefreshException => Some OAuthException
  | AccountLimitExceeded => Some RateLimitException
  | _ => Some TraktException
  end.

Fixpoint mro_from (depth : nat) (c : cls) : list cls :=
  match depth with
  | O => []
  | S depth' =>
      c :: match base c with
           | Some b => mro_from depth' b
           | None => []
           end
  end.

(** The method resolution order, up to the module's base class: no chain of
    bases is longer than three classes. *)
Definition mro (c : cls) : list cls := mro_from 3 c.

(** A str object, from its text. *)
Definition str (x : string) : object := Str (ustr_of_string x).

(** The data attributes assigned in each class body. *)
Definition class_dict (c : cls) : list (string * object) :=
  match c with
  | TraktException =>
      [("http_code", None_); ("message", None_)]
  | BadResponseException =>
      [("http_code", Int (-1));
       ("message", str "Bad Response - Response could not be parsed")]
  | BadRequestException =>
      [("http_code", Int 400);
       ("message", str "Bad Request - request couldn't be parsed")]
  | OAuthException =>
      [("http_code", Int 401);
       ("message", str "Unauthorized - OAuth must be provided")]
  | OAuthRefreshException => []
  | ForbiddenException =>
      [("http_code", Int 403);
       ("message", str "Forbidden - invalid API key or unapproved app")]
  | NotFoundException =>
      [("http_code", Int 404);
       ("message", str "Not Found - method exists, but no record found")]
  | MethodNotAllowedException =>
      [("http_code", Int 405);
       ("message", str "Method Not Found - method doesn't exist")]
  | ConflictException =>
      [("http_code", Int 409);
       ("message", str "Conflict - resource already created")]
  | ProcessException =>
      [("http_code", Int 422);
       ("message", str "Unprocessable Entity - validation errors")]
  | LockedUserAccountException =>
      [("http_code", Int 423);
       ("message", str "Locked User Account - have the user contact support")]
  | RateLimitException =>
      [("http_code", Int 429);
       ("message", str "Rate Limit Exceeded")]
  | AccountLimitExceeded =>
      [("http_code", Int 420);
       ("message", str "Account Limit Exceeded - list count, item count, etc")]
  | TraktInternalException =>
      [("http_code", Int 500);
       ("message", str "Internal Server Error")]
  | TraktBadGateway =>
      [("http_code", Int 502);
       ("message", str "Trakt Unavailable - Bad Gateway")]
  | TraktUnavailable =>
      [("http_code", Int 503);
       ("message", str "Trakt Unavailable - server overloaded")]
  end.

Fixpoint assoc {A} (name : string) (l : list (string * A)) : option A :=
  match l with
  | [] => None
  | (k, v) :: l' => if String.eqb k name then Some v else assoc name l'
  end.

(** The first class of an MRO whose table has the name. *)
Fixpoint lookup_mro {A} (table : cls -> list (string * A)) (order : list cls)
    (name : string) : option A :=
  match order with
  | [] => None
  | c :: order' =>
      match assoc name (table c) with
      | Some v => Some v
      | None => lookup_mro table order' name
      end
  end.

(** What an attribute of an instance can hold: data, or the response. *)
Inductive value : Type :=
| Data (o : object)
| Resp (r : Response).

Coercion Data : object >-> value.

(** An instance: its class and the attributes the constructors assign.
    [response] is always assigned ([None] is Python's None, the default of
    the parameter); [details] is BadResponseException's and [data] is
    OAuthRefreshException's, absent on the other classes. *)
Record instance : Type := {
  ob_type : cls;
  response : option Response;
  details : option object;
  data : option object
}.

(** TraktException.__init__ *)
Definition TraktException__init__ (c : cls) (response : option Response)
  : result instance :=
  Ok {| ob_type := c; response := response; details := None; data := None |}.

(** BadResponseException.__init__ *)
Definition BadResponseException__init__ (c : cls)
    (response : option Response) (details : object) : result instance :=
  self ← TraktException__init__ c response;
  Ok {| ob_type := ob_type self; response := errors.response self;
        details := Some details; data := errors.data self |}.

(** [self.response.x]: None has no attribute [x]. *)
Definition self_response (self : instance) : result Response :=
  match response self with
  | Some r => Ok r
  | None => Raise AttributeError
  end.

(** OAuthRefreshException.__init__ *)
Definition OAuthRefreshException__init__ (c : cls)
    (response : option Response) : result instance :=
  self ← TraktException__init__ c response;
  r ← self_response self;
  d ← json r;
  Ok {| ob_type := ob_type self; response := errors.response self;
        details := errors.details self; data := Some d |}.

(** The classes whose body defines __init__. *)
Inductive init : Set :=
| init_TraktException
| init_BadResponseException
| init_OAuthRefreshException.

Definition class_init (c : cls) : list (string * init) :=
  match c with
  | TraktException => [("__init__", init_TraktException)]
  | BadResponseException => [("__init__", init_BadResponseException)]
  | OAuthRefreshException => [("__init__", init_OAuthRefreshException)]
  | _ => []
  end.

(** [c(response)]: a new instance of [c], initialised by the __init__ that
    the MRO of [c] resolves to, with the response as the only argument. *)
Definition construct (c : cls) (response : option Response) : result instance :=
  match lookup_mro class_init (mro c) "__init__" with
  | Some init_BadResponseException =>
      BadResponseException__init__ c response None_
  | Some init_OAuthRefreshException =>
      OAuthRefreshException__init__ c response
  | Some init_TraktException | None =>
      TraktException__init__ c response
  end.

(** [o[key]] for a string key. *)
Definition getitem (o : object) (key : string) : result object :=
  match o with
  | Dict d =>
      match Json.dict_get d (ustr_of_string key) with
      | Some v => Ok v
      | None => Raise KeyError
      end
  | _ => Raise TypeError
  end.

Definition self_data (self : instance) : result object :=
  match data self with
  | Some d => Ok d
  | None => Raise AttributeError
  end.

(** OAuthRefreshException.error *)
Definition OAuthRefreshException_error (self : instance) : result object :=
  d ← self_data self;
  getitem d "error".

(** OAuthRefreshException.error_description *)
Definition OAuthRefreshException_error_description (self : instance) : result object :=
  d ← self_data self;
  getitem d "error_description".

(** RateLimitException.retry_after:
    int(self.response.headers.get("retry-after", 1)) *)
Definition RateLimitException_retry_after (self : instance) : result object :=
  r ← self_response self;
  n ← match headers r !! "retry-after" with
      | Some v => int_str v
      | None => int_int 1
      end;
  Ok (Int n).

(** RateLimitException.details *)
Definition RateLimitException_details (self : instance) : result object :=
  try_except
    (r ← self_response self;
     Json.loads (ustr_of_string (default "" (headers r !! "x-ratelimit"))))
    JSONDecodeError
    (Ok None_).

(** AccountLimitExceeded.account_limit *)
Definition AccountLimitExceeded_account_limit (self : instance) : result object :=
  r ← self_response self;
  Ok (default None_ (str <$> headers r !! "x-account-limit")).

(** TraktInternalException.error_message *)
Definition TraktInternalException_error_message (self : instance) : result object :=
  r ← self_response self;
  Ok (default None_ (str <$> headers r !! "x-error-message")).

(** The properties defined in each class body. *)
Definition class_properties (c : cls)
  : list (string * (instance -> result object)) :=
  match c with
  | OAuthRefreshException =>
      [("error", OAuthRefreshException_error);
       ("error_description", OAuthRefreshException_error_description)]
  | RateLimitException =>
      [("retry_after", RateLimitException_retry_after);
       ("details", RateLimitException_details)]
  | AccountLimitExceeded =>
      [("account_limit", AccountLimitExceeded_account_limit)]
  | TraktInternalException =>
      [("error_message", TraktInternalException_error_message)]
  | _ => []
  end.

(** The value of a parameter [response]: a response, or None. *)
Definition response_value (resp : option Response) : value :=
  match resp with
  | Some r => Resp r
  | None => Data None_
  end.

(** The instance's own dictionary. *)
Definition instance_dict (self : instance) (name : string) : option value :=
  if String.eqb name "response" then Some (response_value (response self))
  else if String.eqb name "details" then Data <$> details self
  else if String.eqb name "data" then Data <$> data self
  else None.

(** [self.name]: a property of the class (found along the MRO) is called;
    otherwise the instance's own attribute, then a class attribute. *)
Definition getattr (self : instance) (name : string) : result value :=
  let order := mro (ob_type self) in
  match lookup_mro class_properties order name with
  | Some fget => Data <$> fget self
  | None =>
      match instance_dict self name with
      | Some v => Ok v
      | None =>
          match lookup_mro class_dict order name with
          | Some v => Ok (Data v)
          | None => Raise AttributeError
          end
      end
  end.

(** TraktException.__str__ *)
Definition TraktException__str__ (self : instance) : result value :=
  getattr self "message".

End errors.

(** ** trakt/core.py

    The module's globals and the objects it creates live in a [process]: a
    heap of objects, named by their address, the module's variables, and the
    caches of the two memoized functions.  Config, HttpClient and TokenAuth
    are defined in trakt/config.py and trakt/api.py; an object of theirs is
    represented by the arguments of its constructor and, for the client, the
    method calls that core.py makes on it. *)

Module core.

(** An address in the heap. *)
Abbreviation addr := nat.

(** HEADERS *)
Definition HEADERS : gmap string string :=
  {[ "Content-Type" := "application/json"; "trakt-api-version" := "2" ]}.

Module AuthConfig.

Record t : Type := {
  CLIENT_ID : object;
  CLIENT_SECRET : object;
  OAUTH_EXPIRES_AT : object;
  OAUTH_REFRESH : object;
  OAUTH_TOKEN : object;
  HEADERS : option (gmap string string);
  REDIRECT_URI : string
}.

(** The two fields with a default, when the call does not name them. *)
Definition default_HEADERS : option (gmap string string) := Some core.HEADERS.
Definition default_REDIRECT_URI : string := "urn:ietf:wg:oauth:2.0:oob".

End AuthConfig.

Inductive method_call : Type :=
| set_headers (headers : option (gmap string string))
| set_auth (auth : addr).

Inductive obj : Type :=
| Session
| Config (config_path : string)
| HttpClient (base_url : string) (session : addr) (calls : list method_call)
| TokenAuth (client : addr) (config : addr) (params : AuthConfig.t).

(** The module variables that the two functions read. *)
Record globals : Type := {
  BASE_URL : string;
  CLIENT_ID : object;
  CLIENT_SECRET : object;
  CONFIG_PATH : string;
  OAUTH_TOKEN : object;
  OAUTH_EXPIRES_AT : object;
  OAUTH_REFRESH : object;
  session : addr
}.

(** The state of functools.lru_cache(maxsize=None) around a function
    without arguments: its cache has one key, the empty argument list. *)
Record lru : Type := {
  cache : option addr;
  hits : nat;
  misses : nat
}.

Record process : Type := {
  heap : list obj;
  vars : globals;
  config_cache : lru;
  api_cache : lru
}.

Definition set_heap (h : list obj) (st : process) : process :=
  {| heap := h; vars := vars st;
     config_cache := config_cache st; api_cache := api_cache st |}.

Definition set_vars (g : globals) (st : process) : process :=
  {| heap := heap st; vars := g;
     config_cache := config_cache st; api_cache := api_cache st |}.

Definition set_config_cache (c : lru) (st : process) : process :=
  {| heap := heap st; vars := vars st;
     config_cache := c; api_cache := api_cache st |}.

Definition set_api_cache (c : lru) (st : process) : process :=
  {| heap := heap st; vars := vars st;
     config_cache := config_cache st; api_cache := c |}.

(** os.path.join(a, b) for a relative [b], with the POSIX separator. *)
Definition path_join (a b : string) : string :=
  match rev (list_ascii_of_string a) with
  | [] => b
  | c :: _ => if Ascii.eqb c "/" then a ++ b else a ++ "/" ++ b
  end.

(** The process after the import of the module, for a home directory. *)
Definition initial (home : string) : process :=
  {| heap := [Session];
     vars := {| BASE_URL := "https://api-v2launch.trakt.tv/";
                CLIENT_ID := None_;
                CLIENT_SECRET := None_;
                CONFIG_PATH := path_join home ".pytrakt.json";
                OAUTH_TOKEN := None_;
                OAUTH_EXPIRES_AT := None_;
                OAUTH_REFRESH := None_;
                session := 0%nat |};
     config_cache := {| cache := None; hits := 0; misses := 0 |};
     api_cache := {| cache := None; hits := 0; misses := 0 |} |}.

(** A constructor call: the new object gets the next address. *)
Definition new (o : obj) (st : process) : addr * process :=
  (length (heap st), set_heap (heap st ++ [o]) st).

(** A method call on a client is added to the calls it has received. *)
Definition record_call (m : method_call) (o : obj) : obj :=
  match o with
  | HttpClient base_url session calls => HttpClient base_url session (calls ++ [m])
  | _ => o
  end.

Definition call (a : addr) (m : method_call) (st : process) : process :=
  set_heap (alter (record_call m) a (heap st)) st.

(** The wrapper that lru_cache(maxsize=None) puts around [f]. *)
Definition lru_cache (get : process -> lru) (set : lru -> process -> process)
    (f : process -> addr * process) (st : process) : addr * process :=
  let c := get st in
  match cache c with
  | Some result =>
      (result, set {| cache := cache c; hits := S (hits c); misses := misses c |} st)
  | None =>
      let st1 := set {| cache := None; hits := hits c; misses := S (misses c) |} st in
      let (result, st2) := f st1 in
      let c2 := get st2 in
      (result, set {| cache := Some result; hits := hits c2; misses := misses c2 |} st2)
  end.

(** f.cache_clear() *)
Definition cache_clear (set : lru -> process -> process) (st : process) : process :=
  set {| cache := None; hits := 0; misses := 0 |} st.

(** The body of config(). *)
Definition config_body (st : process) : addr * process :=
  new (Config (CONFIG_PATH (vars st))) st.

Definition config : process -> addr * process :=
  lru_cache config_cache set_config_cache config_body.

(** The AuthConfig that api() builds from the module variables. *)
Definition params_of (g : globals) : AuthConfig.t :=
  {| AuthConfig.CLIENT_ID := CLIENT_ID g;
     AuthConfig.CLIENT_SECRET := CLIENT_SECRET g;
     AuthConfig.OAUTH_EXPIRES_AT := OAUTH_EXPIRES_AT g;
     AuthConfig.OAUTH_REFRESH := OAUTH_REFRESH g;
     AuthConfig.OAUTH_TOKEN := OAUTH_TOKEN g;
     AuthConfig.HEADERS := Some HEADERS;
     AuthConfig.REDIRECT_URI := AuthConfig.default_REDIRECT_URI |}.

(** The body of api(). *)
Definition api_body (st : process) : addr * process :=
  let params := params_of (vars st) in
  let (client, st1) := new (HttpClient (BASE_URL (vars st)) (session (vars st)) []) st in
  let st2 := call client (set_headers (AuthConfig.HEADERS params)) st1 in
  let (cfg, st3) := config st2 in
  let (auth, st4) := new (TokenAuth client cfg params) st3 in
  let st5 := call client (set_auth auth) st4 in
  (client, st5).

Definition api : process -> addr * process :=
  lru_cache api_cache set_api_cache api_body.

(** What the rest of the program can do to the module between two calls. *)
Inductive action : Type :=
| call_config
| call_api
| assign (g : globals)
| clear_config
| clear_api.

Definition step (a : action) (st : process) : option addr * process :=
  match a with
  | call_config => let (r, st') := config st in (Some r, st')
  | call_api => let (r, st') := api st in (Some r, st')
  | assign g => (None, set_vars g st)
  | clear_config => (None, cache_clear set_config_cache st)
  | clear_api => (None, cache_clear set_api_cache st)
  end.

(** The actions in order; the result is the log of what each call returned
    and the final process. *)
Fixpoint run (acts : list action) (st : process)
  : list (action * option addr) * process :=
  match acts with
  | [] => ([], st)
  | a :: acts' =>
      let (r, st1) := step a st in
      let (log, st2) := run acts' st1 in
      ((a, r) :: log, st2)
  end.

Definition is_clear (a : action) : bool :=
  match a with
  | clear_config | clear_api => true
  | _ => false
  end.

(** The caches name live objects of the right class, and the cached client
    is as api() left it. *)
Definition is_config (o : option obj) : bool :=
  match o with
  | Some (Config _) => true
  | _ => false
  end.

Definition is_client (o : option obj) : bool :=
  match o with
  | Some (HttpClient _ _ [set_headers h; set_auth _]) =>
      bool_decide (h = Some HEADERS)
  | _ => false
  end.

Definition cached (test : option obj -> bool) (c : lru) (h : list obj) : bool :=
  match cache c with
  | Some a => test (h !! a)
  | None => true
  end.

(** The number of evaluations that a cache has recorded is the number of
    results it holds. *)
Definition counted (c : lru) : bool :=
  match cache c with
  | Some _ => Nat.eqb (misses c) 1
  | None => Nat.eqb (misses c) 0
  end.

Definition no_clear (acts : list action) : bool :=
  forallb (fun a => negb (is_clear a)) acts.

Definition wf (st : process) : bool :=
  cached is_config (config_cache st) (heap st)
  && cached is_client (api_cache st) (heap st).

End core.

(** ** Sample responses *)

Module samples.
Import errors.

(** A text whose apostrophes stand for double quotes. *)
Fixpoint dq (x : string) : string :=
  match x with
  | EmptyString => EmptyString
  | String c x' =>
      String (if Ascii.eqb c "'" then ascii_of_nat 34 else c) (dq x')
  end.

Definition with_headers (h : gmap string string) : Response :=
  {| headers := h; text := [] |}.

Definition with_body (body : string) : Response :=
  {| headers := ∅; text := ustr_of_string body |}.

(** A rate-limited response as the service sends it. *)
Definition rate_limited : Response :=
  with_headers
    {[ "retry-after" := "30";
       "x-ratelimit" := dq "{'name':'API_GET_LIMIT','period':300,'limit':1000,'remaining':0}" ]}.

(** Retry-After as an HTTP date, the other form the header may take. *)
Definition retry_at_date : Response :=
  with_headers {[ "retry-after" := "Wed, 21 Oct 2015 07:28:00 GMT" ]}.

Definition malformed_ratelimit : Response :=
  with_headers {[ "x-ratelimit" := "not-json" ]}.

Definition account_limited : Response :=
  with_headers {[ "x-account-limit" := "100" ]}.

Definition server_error : Response :=
  with_headers {[ "x-error-message" := "upstream timed out" ]}.

(** The token endpoint's answer to a refused refresh. *)
Definition refresh_refused : Response :=
  with_body (dq "{'error': 'invalid_grant', 'error_description': 'The refresh token is invalid'}").

(** A 401 whose body is not JSON. *)
Definition html_401 : Response :=
  with_body "<html>401 Unauthorized</html>".

(** Credentials as trakt.auth leaves them in the module variables. *)
Definition credentials : core.globals :=
  {| core.BASE_URL := "https://api-v2launch.trakt.tv/";
     core.CLIENT_ID := str "client-id";
     core.CLIENT_SECRET := str "client-secret";
     core.CONFIG_PATH := "/home/user/.pytrakt.json";
     core.OAUTH_TOKEN := str "token";
     core.OAUTH_EXPIRES_AT := Int 1700000000;
     core.OAUTH_REFRESH := str "refresh";
     core.session := 0%nat |}.

(** A program that asks for the client and the configuration twice each,
    and signs in between. *)
Definition calls : list core.action :=
  [core.call_api; core.call_config; core.assign credentials;
   core.call_api; core.call_config].

End samples.

(** ** The class hierarchy and the names of the modules *)

Module hierarchy.
Import errors.

#[global] Instance cls_eq_dec : EqDecision cls.
Proof. solve_decision. Defined.

(** issubclass(c, d): [d] is on the MRO of [c]. *)
Definition issubclass_cls (c d : cls) : bool := bool_decide (d ∈ mro c).

(** str(self): the result of __str__, which has to be a str. *)
Definition builtin_str (self : instance) : result ustr :=
  v ← TraktException__str__ self;
  match v with
  | Data (Str text) => Ok text
  | _ => Raise TypeError
  end.

(** c.__name__ *)
Definition class_name (c : cls) : string :=
  match c with
  | TraktException => "TraktException"
  | BadResponseException => "BadResponseException"
  | BadRequestException => "BadRequestException"
  | OAuthException => "OAuthException"
  | OAuthRefreshException => "OAuthRefreshException"
  | ForbiddenException => "ForbiddenException"
  | NotFoundException => "NotFoundException"
  | MethodNotAllowedException => "MethodNotAllowedException"
  | ConflictException => "ConflictException"
  | ProcessException => "ProcessException"
  | LockedUserAccountException => "LockedUserAccountException"
  | RateLimitException => "RateLimitException"
  | AccountLimitExceeded => "AccountLimitExceeded"
  | TraktInternalException => "TraktInternalException"
  | TraktBadGateway => "TraktBadGateway"
  | TraktUnavailable => "TraktUnavailable"
  end.

(** The class statements of the module, in their order. *)
Definition classes : list cls :=
  [TraktException; BadResponseException; BadRequestException; OAuthException;
   OAuthRefreshException; ForbiddenException; NotFoundException;
   MethodNotAllowedException; ConflictException; ProcessException;
   LockedUserAccountException; RateLimitException; AccountLimitExceeded;
   TraktInternalException; TraktBadGateway; TraktUnavailable].

End hierarchy.

(** [from m import *] for a module that defines __all__: every name of
    __all__ is read from the module, and a name that the module does not
    bind is an AttributeError. *)
Fixpoint import_star (bound all : list string) : result (list string) :=
  match all with
  | [] => Ok []
  | name :: all' =>
      if bool_decide (name ∈ bound)
      then names ← import_star bound all'; Ok (name :: names)
      else Raise AttributeError
  end.

Module errors_names.

(** __all__ of trakt/errors.py *)
Definition __all__ : list string :=
  ["TraktException";
   "BadResponseException"; "OAuthRefreshException";
   "AccountLimitExceeded"; "BadRequestException"; "OAuthException";
   "ForbiddenException"; "NotFoundException"; "MethodNotAllowedException";
   "ConflictException"; "ProcessException"; "LockedUserAccountException";
   "RateLimitException"; "TraktInternalException"; "TraktBadGateway";
   "TraktUnavailable"].

(** The names that the body of the module binds. *)
Definition bound : list string :=
  ["__author__"; "__all__"] ++ map hierarchy.class_name hierarchy.classes.

End errors_names.

Module core_names.

(** __all__ of trakt/core.py *)
Definition __all__ : list string :=
  ["Airs"; "Alias"; "Comment"; "Genre";
   "init"; "BASE_URL"; "CLIENT_ID"; "CLIENT_SECRET"; "DEVICE_AUTH";
   "REDIRECT_URI"; "HEADERS"; "CONFIG_PATH"; "OAUTH_TOKEN";
   "OAUTH_REFRESH"; "PIN_AUTH"; "OAUTH_AUTH"; "AUTH_METHOD"; "api"; "config";
   "APPLICATION_ID"].

(** The names that the body of the module binds, in the order of their
    first binding: the imports, then the assignments, classes and
    functions. *)
Definition bound : list string :=
  ["os"; "NamedTuple"; "Optional"; "requests"; "namedtuple"; "lru_cache";
   "__author__"; "__all__";
   "BASE_URL"; "CLIENT_ID"; "CLIENT_SECRET"; "HEADERS"; "CONFIG_PATH";
   "OAUTH_TOKEN"; "api_key"; "OAUTH_EXPIRES_AT"; "OAUTH_REFRESH";
   "PIN_AUTH"; "OAUTH_AUTH"; "DEVICE_AUTH"; "AUTH_METHOD"; "APPLICATION_ID";
   "session"; "AuthConfig"; "init";
   "Airs"; "Alias"; "Genre"; "Comment"; "config"; "api"].

End core_names.

(** What a process has done so far, for the counters of a cache. *)
Module history.
Import core.

Definition is_call_api (a : action) : bool :=
  match a with
  | call_api => true
  | _ => false
  end.

(** The calls of api() among the actions. *)
Definition api_calls (acts : list action) : nat :=
  length (List.filter is_call_api acts).

(** The TokenAuth that a client was given by set_auth, if it was. *)
Definition auth_of (h : list obj) (client : addr) : option obj :=
  match h !! client with
  | Some (HttpClient _ _ [set_headers _; set_auth a]) => h !! a
  | _ => None
  end.

End history.

(** Case analysis on the first test that a hypothesis about a scan is
    stuck on. *)
Ltac case_scan H :=
  match type of H with
  | context [match ?x with _ => _ end] => destruct x eqn:?
  end.

(** * Properties *)

(** ** The builtins *)

Example int_str_30 : int_str "30" = Ok 30.
Proof. reflexivity. Qed.

Example int_str_padded : int_str "  -1_000 " = Ok (-1000).
Proof. reflexivity. Qed.

Example int_str_abc : int_str "abc" = Raise ValueError.
Proof. reflexivity. Qed.

Example int_str_empty : int_str "" = Raise ValueError.
Proof. reflexivity. Qed.

Example int_str_float : int_str "1.5" = Raise ValueError.
Proof. reflexivity. Qed.

Example int_str_nbsp : int_str (String (ascii_of_nat 160) "7") = Ok 7.
Proof. reflexivity. Qed.

Example loads_empty : Json.loads [] = Raise JSONDecodeError.
Proof. reflexivity. Qed.

Example loads_unclosed : Json.loads (ustr_of_string "[[[[[[[[") = Raise JSONDecodeError.
Proof. reflexivity. Qed.

Example loads_nested :
  Json.loads (ustr_of_string " [[1, [2.5e3, -0]], {}, true, null] ")
  = Ok (List_ [List_ [Int 1; List_ [Float (ustr_of_string "2.5e3"); Int 0]];
               Dict []; Bool true; None_]).
Proof. reflexivity. Qed.

Example loads_duplicate_key :
  Json.loads (ustr_of_string (samples.dq "{'a': 1, 'b': 2, 'a': 3}"))
  = Ok (Dict [(ustr_of_string "a", Int 3); (ustr_of_string "b", Int 2)]).
Proof. reflexivity. Qed.

Example loads_surrogates :
  Json.loads (ustr_of_string (samples.dq "'\ud83d\ude00'")) = Ok (Str [128512%N]).
Proof. reflexivity. Qed.

Example loads_trailing_comma :
  Json.loads (ustr_of_string "[1,]") = Raise JSONDecodeError.
Proof. reflexivity. Qed.

Example loads_extra_data :
  Json.loads (ustr_of_string "01") = Raise JSONDecodeError.
Proof. reflexivity. Qed.

(** ** The decoder's budget *)

Module JsonFacts.
Import Json.

Lemma skip_ws_length (s : ustr) : (length (skip_ws s) <= length s)%nat.
Proof.
  induction s as [|c s IH]; simpl; [lia|].
  destruct (is_ws c); simpl; lia.
Qed.

Lemma skip_ws_cons (s : ustr) (c : N) (s' : ustr) :
  skip_ws s = c :: s' -> (length s' < length s)%nat.
Proof.
  intros H. pose proof (skip_ws_length s) as L. rewrite H in L. simpl in L. lia.
Qed.

(** The text after a string is shorter than the text the string began in. *)
Lemma scanstring_rest (n : nat) :
  forall s acc str rest,
    (length s <= n)%nat ->
    scanstring s acc = Some (str, rest) -> (length rest < length s)%nat.
Proof.
  induction n as [|n IH]; intros s acc str rest Hn H.
  - destruct s; simpl in *; [discriminate | lia].
  - destruct s as [|c s1]; simpl in H; [discriminate|].
    simpl in Hn.
    repeat (first
      [ discriminate H
      | (injection H as <- <-; simpl; lia)
      | (apply IH in H; simpl in *; lia)
      | case_scan H ]).
Qed.

Lemma take_digits_length (s : ustr) :
  (length (snd (take_digits s)) <= length s)%nat.
Proof.
  induction s as [|c s IH]; simpl; [lia|].
  destruct (is_digit c); simpl; [|lia].
  destruct (take_digits s); simpl in *; lia.
Qed.

Lemma match_integer_rest (s : ustr) (lexeme rest : ustr) :
  match_integer s = Some (lexeme, rest) -> (length rest < length s)%nat.
Proof.
  unfold match_integer. intros H.
  destruct s as [|c s1]; [discriminate|].
  destruct (c =? 45)%N.
  - destruct s1 as [|c1 s2]; [discriminate|].
    destruct (c1 =? 48)%N; [injection H as <- <-; simpl; lia|].
    destruct (is_digit c1); [|discriminate].
    pose proof (take_digits_length s2) as L.
    destruct (take_digits s2). injection H as <- <-. simpl in *. lia.
  - destruct (c =? 48)%N; [injection H as <- <-; simpl; lia|].
    destruct (is_digit c); [|discriminate].
    pose proof (take_digits_length s1) as L.
    destruct (take_digits s1). injection H as <- <-. simpl in *. lia.
Qed.

Lemma match_frac_length (s : ustr) :
  (length (snd (match_frac s)) <= length s)%nat.
Proof.
  unfold match_frac. destruct s as [|c s1]; simpl; [lia|].
  destruct (c =? 46)%N; simpl; [|lia].
  pose proof (take_digits_length s1) as L.
  destruct (take_digits s1) as [[|d ds] r]; simpl in *; lia.
Qed.

Lemma match_exp_length (s : ustr) :
  (length (snd (match_exp s)) <= length s)%nat.
Proof.
  unfold match_exp. destruct s as [|c s1]; simpl; [lia|].
  destruct ((c =? 101)%N || (c =? 69)%N); simpl; [|lia].
  destruct s1 as [|g s2]; simpl; [lia|].
  destruct ((g =? 45)%N || (g =? 43)%N).
  - pose proof (take_digits_length s2) as L.
    destruct (take_digits s2) as [[|d ds] r]; simpl in *; lia.
  - pose proof (take_digits_length (g :: s2)) as L.
    destruct (take_digits (g :: s2)) as [[|d ds] r]; simpl in *; lia.
Qed.

Lemma match_number_rest (s : ustr) (v : object) (rest : ustr) :
  match_number s = Some (v, rest) -> (length rest < length s)%nat.
Proof.
  unfold match_number. intros H.
  destruct (match_integer s) as [[lexeme s1]|] eqn:E; [|discriminate].
  apply match_integer_rest in E.
  pose proof (match_frac_length s1) as L1.
  destruct (match_frac s1) as [frac s2]. simpl in L1.
  pose proof (match_exp_length s2) as L2.
  destruct (match_exp s2) as [exp s3]. simpl in L2.
  destruct frac, exp; injection H as <- <-; lia.
Qed.

Lemma after_word_length (word s rest : ustr) :
  after_word word s = Some rest -> length s = (length word + length rest)%nat.
Proof.
  revert s. induction word as [|w word IH]; intros s H; simpl in H.
  - injection H as <-. reflexivity.
  - destruct s as [|c s']; [discriminate|].
    destruct (c =? w)%N; [|discriminate].
    apply IH in H. simpl. lia.
Qed.

Lemma literal_rest (word : string) (v v' : object) (s rest : ustr) :
  literal word v s = Some (v', rest) ->
  (0 < String.length word)%nat -> (length rest < length s)%nat.
Proof.
  unfold literal. intros H Hw.
  destruct (after_word (ustr_of_string word) s) as [r|] eqn:E; [|discriminate].
  injection H as <- <-. apply after_word_length in E.
  unfold ustr_of_string in E. rewrite length_map in E.
  assert (length (list_ascii_of_string word) = String.length word) as L.
  { clear. induction word; simpl; congruence. }
  lia.
Qed.

Lemma scanstring_shorter (s acc str rest : ustr) :
  scanstring s acc = Some (str, rest) -> (length rest < length s)%nat.
Proof. apply (scanstring_rest (length s)). lia. Qed.

(** A value that starts with none of the quote, the brace and the bracket:
    a constant or a number. *)
Lemma constant_rest (s : ustr) (v : object) (rest : ustr) :
  match literal "null" None_ s with
  | Some r => Some r
  | None =>
  match literal "true" (Bool true) s with
  | Some r => Some r
  | None =>
  match literal "false" (Bool false) s with
  | Some r => Some r
  | None =>
  match match_number s with
  | Some r => Some r
  | None =>
  match literal "NaN" (Float (ustr_of_string "NaN")) s with
  | Some r => Some r
  | None =>
  match literal "Infinity" (Float (ustr_of_string "Infinity")) s with
  | Some r => Some r
  | None => literal "-Infinity" (Float (ustr_of_string "-Infinity")) s
  end end end end end end = Some (v, rest) ->
  (length rest < length s)%nat.
Proof.
  intros H.
  repeat match type of H with
  | match literal ?w ?x s with _ => _ end = _ =>
      let E := fresh "E" in
      destruct (literal w x s) as [[? ?]|] eqn:E;
      [injection H as <- <-; apply literal_rest in E; [exact E | simpl; lia]|]
  | match match_number s with _ => _ end = _ =>
      let E := fresh "E" in
      destruct (match_number s) as [[? ?]|] eqn:E;
      [injection H as <- <-; apply match_number_rest in E; exact E|]
  end.
  apply literal_rest in H; [exact H | simpl; lia].
Qed.

(** With more than twice the length of the text as budget (and one more
    inside an array or an object), no call runs out, and a value that is
    read uses up some of the text. *)
Lemma scan_once_budget (fuel : nat) :
  (forall s, (2 * length s < fuel)%nat -> advances s (scan_once fuel s)) /\
  (forall s values, (2 * length s + 1 < fuel)%nat ->
     advances s (array_items fuel s values)) /\
  (forall s pairs, (2 * length s + 1 < fuel)%nat ->
     advances s (object_items fuel s pairs)).
Proof.
  induction fuel as [|fuel (IHscan & IHarr & IHobj)].
  { repeat split; intros; lia. }
  split; [|split].
  - intros s Hf. destruct s as [|c s1]; [exact I|].
    cbn [scan_once]. simpl in Hf.
    destruct (c =? 34)%N.
    { destruct (scanstring s1 []) as [[str rest]|] eqn:E; [|exact I].
      apply scanstring_shorter in E. simpl. lia. }
    destruct (c =? 123)%N.
    { destruct (skip_ws s1) as [|q s2] eqn:E; [exact I|].
      apply skip_ws_cons in E.
      destruct (q =? 125)%N; [simpl; lia|].
      destruct (q =? 34)%N; [|exact I].
      specialize (IHobj s2 [] ltac:(lia)).
      destruct (object_items fuel s2 []); simpl in *;
        [lia | exact I | exact IHobj]. }
    destruct (c =? 91)%N.
    { destruct (skip_ws s1) as [|q s2] eqn:E; [exact I|].
      apply skip_ws_cons in E.
      destruct (q =? 93)%N; [simpl; lia|].
      specialize (IHarr (q :: s2) [] ltac:(simpl; lia)).
      destruct (array_items fuel (q :: s2) []); simpl in *;
        [lia | exact I | exact IHarr]. }
    match goal with
    | |- advances _ (match ?x with _ => _ end) => destruct x as [[v rest]|] eqn:E
    end; [|exact I].
    apply constant_rest in E. exact E.
  - intros s values Hf. cbn [array_items].
    specialize (IHscan s ltac:(lia)).
    destruct (scan_once fuel s) as [value rest| |]; [|exact I|exact IHscan].
    simpl in IHscan.
    destruct (skip_ws rest) as [|c rest'] eqn:E; [exact I|].
    apply skip_ws_cons in E.
    destruct (c =? 93)%N; [simpl; lia|].
    destruct (c =? 44)%N; [|exact I].
    pose proof (skip_ws_length rest') as L.
    specialize (IHarr (skip_ws rest') (value :: values) ltac:(lia)).
    destruct (array_items fuel (skip_ws rest') (value :: values));
      simpl in *; [lia | exact I | exact IHarr].
  - intros s pairs Hf. cbn [object_items].
    destruct (scanstring s []) as [[key s1]|] eqn:Ekey; [|exact I].
    apply scanstring_shorter in Ekey.
    destruct (skip_ws s1) as [|c s2] eqn:E1; [exact I|].
    apply skip_ws_cons in E1.
    destruct (c =? 58)%N; [|exact I].
    pose proof (skip_ws_length s2) as L2.
    specialize (IHscan (skip_ws s2) ltac:(lia)).
    destruct (scan_once fuel (skip_ws s2)) as [value rest| |];
      [|exact I|exact IHscan].
    simpl in IHscan.
    destruct (skip_ws rest) as [|d rest'] eqn:E2; [exact I|].
    apply skip_ws_cons in E2.
    destruct (d =? 125)%N; [simpl; lia|].
    destruct (d =? 44)%N; [|exact I].
    destruct (skip_ws rest') as [|q s3] eqn:E3; [exact I|].
    apply skip_ws_cons in E3.
    destruct (q =? 34)%N; [|exact I].
    specialize (IHobj s3 ((key, value) :: pairs) ltac:(lia)).
    destruct (object_items fuel s3 ((key, value) :: pairs));
      simpl in *; [lia | exact I | exact IHobj].
Qed.

(** An outcome within the budget does not depend on the budget: a larger
    one gives the same value, or the same failure. *)
Lemma scan_once_stable (fuel : nat) :
  (forall s k, scan_once fuel s <> Exhausted ->
     scan_once (fuel + k) s = scan_once fuel s) /\
  (forall s values k, array_items fuel s values <> Exhausted ->
     array_items (fuel + k) s values = array_items fuel s values) /\
  (forall s pairs k, object_items fuel s pairs <> Exhausted ->
     object_items (fuel + k) s pairs = object_items fuel s pairs).
Proof.
  induction fuel as [|fuel (IHscan & IHarr & IHobj)].
  { repeat split; intros; exfalso; auto. }
  split; [|split].
  - intros s k H. change (S fuel + k)%nat with (S (fuel + k)).
    cbn [scan_once] in *.
    destruct s as [|c s1]; [reflexivity|].
    destruct (c =? 34)%N; [reflexivity|].
    destruct (c =? 123)%N.
    { destruct (skip_ws s1) as [|q s2]; [reflexivity|].
      destruct (q =? 125)%N; [reflexivity|].
      destruct (q =? 34)%N; [|reflexivity].
      apply IHobj, H. }
    destruct (c =? 91)%N; [|reflexivity].
    destruct (skip_ws s1) as [|q s2]; [reflexivity|].
    destruct (q =? 93)%N; [reflexivity|].
    apply IHarr, H.
  - intros s values k H. change (S fuel + k)%nat with (S (fuel + k)).
    cbn [array_items] in *.
    destruct (scan_once fuel s) as [value rest| |] eqn:E;
      [|rewrite IHscan, E by (rewrite E; discriminate); reflexivity
       |contradiction H; reflexivity].
    rewrite IHscan, E by (rewrite E; discriminate).
    destruct (skip_ws rest) as [|c rest']; [reflexivity|].
    destruct (c =? 93)%N; [reflexivity|].
    destruct (c =? 44)%N; [|reflexivity].
    apply IHarr, H.
  - intros s pairs k H. change (S fuel + k)%nat with (S (fuel + k)).
    cbn [object_items] in *.
    destruct (scanstring s []) as [[key s1]|]; [|reflexivity].
    destruct (skip_ws s1) as [|c s2]; [reflexivity|].
    destruct (c =? 58)%N; [|reflexivity].
    destruct (scan_once fuel (skip_ws s2)) as [value rest| |] eqn:E;
      [|rewrite IHscan, E by (rewrite E; discriminate); reflexivity
       |contradiction H; reflexivity].
    rewrite IHscan, E by (rewrite E; discriminate).
    destruct (skip_ws rest) as [|d rest']; [reflexivity|].
    destruct (d =? 125)%N; [reflexivity|].
    destruct (d =? 44)%N; [|reflexivity].
    destruct (skip_ws rest') as [|q s3]; [reflexivity|].
    destruct (q =? 34)%N; [|reflexivity].
    apply IHobj, H.
Qed.

(** Any budget above twice the length of the text gives the outcome that
    [decode] works with. *)
Lemma scan_once_enough (s : ustr) (fuel : nat) :
  (2 * length s < fuel)%nat ->
  scan_once fuel s = scan_once (2 * length s + 1) s.
Proof.
  intros H.
  replace fuel with (2 * length s + 1 + (fuel - (2 * length s + 1)))%nat by lia.
  apply (proj1 (scan_once_stable _)).
  pose proof (proj1 (scan_once_budget (2 * length s + 1)) s ltac:(lia)) as B.
  intros E. rewrite E in B. exact B.
Qed.

(** The decoder returns a value or fails with a JSONDecodeError. *)
Lemma decode_not_exhausted (s : ustr) : decode s <> Exhausted.
Proof.
  unfold decode.
  destruct (scan_once_budget (2 * length (skip_ws s) + 1)) as (Hscan & _ & _).
  specialize (Hscan (skip_ws s) ltac:(lia)).
  destruct (scan_once _ (skip_ws s)) as [v rest| |]; simpl in Hscan.
  - destruct (skip_ws rest); discriminate.
  - discriminate.
  - contradiction.
Qed.

Lemma loads_raises (s : ustr) (e : exn) :
  loads s = Raise e -> e = JSONDecodeError.
Proof.
  unfold loads. pose proof (decode_not_exhausted s) as H.
  destruct (decode s); intros E; [discriminate | congruence | contradiction].
Qed.

End JsonFacts.

(** ** The error taxonomy *)

Module ErrorFacts.
Import errors.

(** Every MRO ends in the base class of the module: the depth given to
    [mro] covers the longest chain of bases. *)
Lemma mro_complete (c : cls) : last (mro c) = Some TraktException.
Proof. destruct c; reflexivity. Qed.

Lemma mro_head (c : cls) : head (mro c) = Some c.
Proof. destruct c; reflexivity. Qed.

(** Only two classes override the constructor of the base class. *)
Lemma construct_plain (c : cls) (resp : option Response) :
  c <> BadResponseException -> c <> OAuthRefreshException ->
  construct c resp = TraktException__init__ c resp.
Proof. destruct c; intros H1 H2; try reflexivity; contradiction. Qed.

(** A header made of decimal digits. *)
Lemma digit_not_space (c : ascii) (d : Z) :
  digit_value c = Some d -> is_space c = false.
Proof.
  unfold digit_value, is_space. intros H.
  destruct ((48 <=? N_of_ascii c)%N && (N_of_ascii c <=? 57)%N) eqn:E;
    [|discriminate].
  apply andb_true_iff in E as [E1 E2].
  apply N.leb_le in E1. apply N.leb_le in E2.
  repeat (apply orb_false_iff; split);
    try apply andb_false_iff; try (apply N.eqb_neq; lia).
  right. apply N.leb_gt. lia.
Qed.

Lemma digit_not_sign (c : ascii) (d : Z) :
  digit_value c = Some d -> c <> "+"%char /\ c <> "-"%char.
Proof. intros H; split; intros ->; discriminate H. Qed.

Lemma int_digits_decimal (l : list ascii) (acc : Z) :
  forallb (fun c => bool_decide (is_Some (digit_value c))) l = true ->
  int_digits l acc false
  = Some (fold_left (fun a c => 10 * a + default 0 (digit_value c)) l acc).
Proof.
  revert acc. induction l as [|c l IH]; intros acc H; simpl in *.
  - reflexivity.
  - apply andb_true_iff in H as [Hc Hl].
    apply bool_decide_eq_true in Hc as [d Hd]. rewrite Hd. simpl.
    apply IH, Hl.
Qed.

Lemma int_str_decimal (v : string) :
  is_decimal v = true -> int_str v = Ok (decimal_value v).
Proof.
  unfold is_decimal, decimal_value, int_str.
  destruct (list_ascii_of_string v) as [|c l] eqn:E; [discriminate|].
  intros H. pose proof H as H'. simpl in H'.
  apply andb_true_iff in H' as [Hc _].
  apply bool_decide_eq_true in Hc as [d Hd].
  simpl lstrip. rewrite (digit_not_space c d Hd).
  destruct (digit_not_sign c d Hd) as [Hp Hm].
  assert (int_unsigned (c :: l)
          = Some (fold_left (fun a c => 10 * a + default 0 (digit_value c))
                            (c :: l) 0)) as U.
  { unfold int_unsigned. rewrite Hd. apply int_digits_decimal, H. }
  destruct c as [[] [] [] [] [] [] [] []];
    try (exfalso; apply Hp; reflexivity);
    try (exfalso; apply Hm; reflexivity);
    rewrite U; reflexivity.
Qed.

(** *** Attribute access *)

Example http_code_of_base :
  (self ← construct TraktException None; getattr self "http_code")
  = Ok (Data None_).
Proof. reflexivity. Qed.

Example details_of_bad_response :
  (self ← construct BadResponseException None; getattr self "details")
  = Ok (Data None_).
Proof. reflexivity. Qed.

Example details_not_on_not_found :
  (self ← construct NotFoundException None; getattr self "details")
  = Raise AttributeError.
Proof. reflexivity. Qed.

Example refresh_error_without_response :
  construct OAuthRefreshException None = Raise AttributeError.
Proof. reflexivity. Qed.

Example retry_after_without_response :
  (self ← construct RateLimitException None; getattr self "retry_after")
  = Raise AttributeError.
Proof. reflexivity. Qed.

(** *** RateLimitException *)

(** retry_after is the default when the header is absent, and otherwise
    whatever int() makes of the header. *)
Lemma retry_after_int (r : Response) :
  (self ← construct RateLimitException (Some r); getattr self "retry_after")
  = match headers r !! "retry-after" with
    | Some v => n ← int_str v; Ok (Data (Int n))
    | None => Ok (Data (Int 1))
    end.
Proof.
  cbn. destruct (headers r !! "retry-after") as [v|]; [|reflexivity].
  cbn. destruct (int_str v); reflexivity.
Qed.

Lemma retry_after_absent (r : Response) :
  headers r !! "retry-after" = None ->
  (self ← construct RateLimitException (Some r); getattr self "retry_after")
  = Ok (Data (Int 1)).
Proof. intros H. cbn. rewrite H. reflexivity. Qed.

Lemma retry_after_decimal (r : Response) (v : string) :
  headers r !! "retry-after" = Some v -> is_decimal v = true ->
  (self ← construct RateLimitException (Some r); getattr self "retry_after")
  = Ok (Data (Int (decimal_value v))).
Proof.
  intros H Hv. cbn. rewrite H. cbn. rewrite (int_str_decimal v Hv). reflexivity.
Qed.

(** The conversion of the header is not guarded: where int() rejects the
    text, the ValueError leaves the property. *)
Lemma retry_after_rejected (r : Response) (v : string) :
  headers r !! "retry-after" = Some v -> int_str v = Raise ValueError ->
  (self ← construct RateLimitException (Some r); getattr self "retry_after")
  = Raise ValueError.
Proof. intros H Hv. cbn. rewrite H. cbn. rewrite Hv. reflexivity. Qed.

(** C1, at the failing input: for a 429 response whose retry-after header is
    an HTTP date, a text that is not a number, reading retry_after raises
    ValueError; it does not return 1. *)
Theorem retry_after_raises_on_date :
  headers samples.retry_at_date !! "retry-after"
  = Some "Wed, 21 Oct 2015 07:28:00 GMT" /\
  (self ← construct RateLimitException (Some samples.retry_at_date);
   getattr self "retry_after") = Raise ValueError.
Proof. split; vm_compute; reflexivity. Qed.


Example details_of_rate_limited :
  (self ← construct RateLimitException (Some samples.rate_limited);
   getattr self "details")
  = Ok (Data (Dict [(ustr_of_string "name", str "API_GET_LIMIT");
                    (ustr_of_string "period", Int 300);
                    (ustr_of_string "limit", Int 1000);
                    (ustr_of_string "remaining", Int 0)])).
Proof. vm_compute. reflexivity. Qed.

Example details_of_malformed :
  (self ← construct RateLimitException (Some samples.malformed_ratelimit);
   getattr self "details") = Ok (Data None_).
Proof. vm_compute. reflexivity. Qed.

Example retry_after_of_rate_limited :
  (self ← construct RateLimitException (Some samples.rate_limited);
   getattr self "retry_after") = Ok (Data (Int 30)).
Proof. vm_compute. reflexivity. Qed.

(** A property belongs to the classes that define or inherit it. *)
Example account_limit_not_on_rate_limit :
  (self ← construct RateLimitException (Some samples.account_limited);
   getattr self "account_limit") = Raise AttributeError.
Proof. vm_compute. reflexivity. Qed.

Example retry_after_inherited :
  (self ← construct AccountLimitExceeded (Some samples.rate_limited);
   getattr self "retry_after") = Ok (Data (Int 30)).
Proof. vm_compute. reflexivity. Qed.

(** *** The status codes *)

(** C3: the error of each kind in the table of status codes carries that
    code as its http_code, whatever response it is built from: BadRequest
    400, OAuth 401, Forbidden 403, NotFound 404, MethodNotAllowed 405,
    Conflict 409, AccountLimitExceeded 420, Unprocessable 422, LockedAccount
    423, RateLimit 429, InternalServerError 500, BadGateway 502 and
    Unavailable 503. *)
Theorem http_code_of_each_kind (resp : option Response) :
  let http_code c := self ← construct c resp; getattr self "http_code" in
  http_code BadRequestException = Ok (Data (Int 400)) /\
  http_code OAuthException = Ok (Data (Int 401)) /\
  http_code ForbiddenException = Ok (Data (Int 403)) /\
  http_code NotFoundException = Ok (Data (Int 404)) /\
  http_code MethodNotAllowedException = Ok (Data (Int 405)) /\
  http_code ConflictException = Ok (Data (Int 409)) /\
  http_code AccountLimitExceeded = Ok (Data (Int 420)) /\
  http_code ProcessException = Ok (Data (Int 422)) /\
  http_code LockedUserAccountException = Ok (Data (Int 423)) /\
  http_code RateLimitException = Ok (Data (Int 429)) /\
  http_code TraktInternalException = Ok (Data (Int 500)) /\
  http_code TraktBadGateway = Ok (Data (Int 502)) /\
  http_code TraktUnavailable = Ok (Data (Int 503)).
Proof. cbv zeta. repeat split; reflexivity. Qed.

(** The codes tell the kinds of the table apart. *)
Lemma http_code_injective (c c' : cls) (n : Z) :
  c <> TraktException -> c <> OAuthRefreshException ->
  c' <> TraktException -> c' <> OAuthRefreshException ->
  lookup_mro class_dict (mro c) "http_code" = Some (Int n) ->
  lookup_mro class_dict (mro c') "http_code" = Some (Int n) ->
  c = c'.
Proof.
  intros H1 H2 H3 H4 E E'.
  destruct c; try contradiction; cbn in E; injection E as <-;
    destruct c'; try contradiction; cbn in E'; try discriminate E';
    reflexivity.
Qed.

(** *** OAuthRefreshException *)

(** The refresh error of a response whose body decodes. *)
Lemma refresh_error_built (r : Response) (body : object) :
  json r = Ok body ->
  construct OAuthRefreshException (Some r)
  = Ok {| ob_type := OAuthRefreshException; response := Some r;
          details := None; data := Some body |}.
Proof.
  intros H. unfold construct. cbn -[json].
  unfold OAuthRefreshException__init__. cbn -[json]. rewrite H. reflexivity.
Qed.

(** C4: for a response whose body decodes to a JSON value, the refresh error
    built from it is a 401 error whose error and error_description are the
    entries of that body under these two names. *)
Theorem refresh_error_fields (r : Response) (body : object) :
  json r = Ok body ->
  exists self,
    construct OAuthRefreshException (Some r) = Ok self /\
    getattr self "http_code" = Ok (Data (Int 401)) /\
    getattr self "error" = Data <$> getitem body "error" /\
    getattr self "error_description"
    = Data <$> getitem body "error_description".
Proof.
  intros H. eexists. split; [apply refresh_error_built, H|].
  repeat split; reflexivity.
Qed.

(** The answer of the token endpoint to a refused refresh. *)
Lemma refresh_error_fields_witness :
  exists self,
    construct OAuthRefreshException (Some samples.refresh_refused) = Ok self /\
    getattr self "http_code" = Ok (Data (Int 401)) /\
    getattr self "error" = Ok (Data (str "invalid_grant")) /\
    getattr self "error_description"
    = Ok (Data (str "The refresh token is invalid")).
Proof.
  destruct (refresh_error_fields samples.refresh_refused
              (Dict [(ustr_of_string "error", str "invalid_grant");
                     (ustr_of_string "error_description",
                      str "The refresh token is invalid")]))
    as (self & Hc & Hcode & He & Hd).
  - vm_compute. reflexivity.
  - exists self. repeat split; assumption.
Defined.

(** When the body is a JSON object with both names, both reads succeed. *)
Lemma refresh_error_fields_present (r : Response) (d : list (ustr * object))
    (v1 v2 : object) :
  json r = Ok (Dict d) ->
  Json.dict_get d (ustr_of_string "error") = Some v1 ->
  Json.dict_get d (ustr_of_string "error_description") = Some v2 ->
  (self ← construct OAuthRefreshException (Some r); getattr self "error")
  = Ok (Data v1) /\
  (self ← construct OAuthRefreshException (Some r);
   getattr self "error_description") = Ok (Data v2).
Proof.
  intros H H1 H2.
  rewrite (refresh_error_built r (Dict d) H).
  cbn -[ustr_of_string]. unfold OAuthRefreshException_error,
    OAuthRefreshException_error_description, getitem.
  cbn -[ustr_of_string]. rewrite H1, H2. split; reflexivity.
Qed.

(** C10: the constructor of the refresh error decodes the body at once: when
    response.json() raises, the exception leaves the constructor and no
    error object is built; when an error object is built, it already holds
    the decoded body. *)
Theorem refresh_error_decodes_eagerly (r : Response) :
  (forall e, json r = Raise e ->
     construct OAuthRefreshException (Some r) = Raise e) /\
  (forall self, construct OAuthRefreshException (Some r) = Ok self ->
     exists body, json r = Ok body /\ data self = Some body).
Proof.
  unfold construct. cbn -[json].
  unfold OAuthRefreshException__init__. cbn -[json].
  destruct (json r) as [body|e']; cbn; split.
  - intros e H. discriminate H.
  - intros self H. injection H as <-. exists body. split; reflexivity.
  - intros e H. injection H as <-. reflexivity.
  - intros self H. discriminate H.
Qed.

(** A 401 with an HTML body. *)
Lemma refresh_error_decodes_eagerly_witness :
  json samples.html_401 = Raise JSONDecodeError /\
  construct OAuthRefreshException (Some samples.html_401)
  = Raise JSONDecodeError.
Proof.
  assert (json samples.html_401 = Raise JSONDecodeError) as H
    by (vm_compute; reflexivity).
  split; [exact H|].
  apply (proj1 (refresh_error_decodes_eagerly samples.html_401)
           JSONDecodeError H).
Defined.

(** *** The response of an error *)

(** C5, as stated, fails: from a 401 response whose body is not JSON no
    refresh error is built, so there is no error that holds the response. *)
Theorem response_not_always_kept :
  construct OAuthRefreshException (Some samples.html_401)
  = Raise JSONDecodeError /\
  ~ (exists self,
       construct OAuthRefreshException (Some samples.html_401) = Ok self /\
       getattr self "response" = Ok (Resp samples.html_401)).
Proof.
  assert (construct OAuthRefreshException (Some samples.html_401)
          = Raise JSONDecodeError) as E by (vm_compute; reflexivity).
  split; [exact E|].
  intros (self & H & _). rewrite E in H. discriminate H.
Qed.

(** C5, amended: every class but the refresh error builds an error from any
    response (None too), and the error's response attribute is that
    response; the refresh error does so for every response whose json()
    returns. *)
Theorem response_kept (c : cls) (resp : option Response) :
  (c <> OAuthRefreshException ->
   exists self, construct c resp = Ok self /\ ob_type self = c /\
                getattr self "response" = Ok (response_value resp)) /\
  (forall r body, resp = Some r -> json r = Ok body ->
   exists self, construct OAuthRefreshException resp = Ok self /\
                ob_type self = OAuthRefreshException /\
                getattr self "response" = Ok (Resp r)).
Proof.
  split.
  - intros Hc. destruct c; try contradiction;
      (eexists; split; [reflexivity | split; reflexivity]).
  - intros r body -> H. eexists.
    split; [apply (refresh_error_built r body H) | split; reflexivity].
Qed.

(** A rate-limited response, and the refused refresh. *)
Lemma response_kept_witness :
  (exists self,
     construct RateLimitException (Some samples.rate_limited) = Ok self /\
     ob_type self = RateLimitException /\
     getattr self "response" = Ok (Resp samples.rate_limited)) /\
  (exists self,
     construct OAuthRefreshException (Some samples.refresh_refused) = Ok self /\
     ob_type self = OAuthRefreshException /\
     getattr self "response" = Ok (Resp samples.refresh_refused)).
Proof.
  split.
  - apply (proj1 (response_kept RateLimitException (Some samples.rate_limited))).
    discriminate.
  - eapply (proj2 (response_kept OAuthRefreshException
                     (Some samples.refresh_refused))).
    + reflexivity.
    + vm_compute. reflexivity.
Defined.

(** *** The limits and the server's message *)

(** C6: for every response, the account-limit error built from it has
    http_code 420, and its account_limit is the text of the x-account-limit
    header, or None when the response has no such header. *)
Theorem account_limit_from_header (r : Response) :
  (self ← construct AccountLimitExceeded (Some r); getattr self "http_code")
  = Ok (Data (Int 420)) /\
  (self ← construct AccountLimitExceeded (Some r); getattr self "account_limit")
  = Ok (Data match headers r !! "x-account-limit" with
             | Some v => str v
             | None => None_
             end).
Proof.
  split; [reflexivity|]. cbn.
  destruct (headers r !! "x-account-limit"); reflexivity.
Qed.

(** C7: for every response, the internal-server error built from it has
    http_code 500, and its error_message is the text of the x-error-message
    header, or None when the response has no such header. *)
Theorem error_message_from_header (r : Response) :
  (self ← construct TraktInternalException (Some r); getattr self "http_code")
  = Ok (Data (Int 500)) /\
  (self ← construct TraktInternalException (Some r); getattr self "error_message")
  = Ok (Data match headers r !! "x-error-message" with
             | Some v => str v
             | None => None_
             end).
Proof.
  split; [reflexivity|]. cbn.
  destruct (headers r !! "x-error-message"); reflexivity.
Qed.

Example account_limit_of_sample :
  (self ← construct AccountLimitExceeded (Some samples.account_limited);
   getattr self "account_limit") = Ok (Data (str "100")).
Proof. vm_compute. reflexivity. Qed.

Example error_message_of_sample :
  (self ← construct TraktInternalException (Some samples.server_error);
   getattr self "error_message") = Ok (Data (str "upstream timed out")).
Proof. vm_compute. reflexivity. Qed.

End ErrorFacts.

(** ** The memoized entry points *)

Module CoreFacts.
Import core.

Local Open Scope nat_scope.
Local Open Scope list_scope.

Lemma alter_at_end {A} (f : A -> A) (h : list A) (o : A) (l : list A) :
  alter f (length h) (h ++ o :: l) = h ++ f o :: l.
Proof.
  replace (length h) with (length h + 0) by lia.
  rewrite alter_app_r. reflexivity.
Qed.

(** *** What one call does *)

Lemma config_cached (st : process) (c : addr) :
  cache (config_cache st) = Some c ->
  config st
  = (c, set_config_cache {| cache := Some c; hits := S (hits (config_cache st));
                            misses := misses (config_cache st) |} st).
Proof. intros H. unfold config, lru_cache. rewrite H. reflexivity. Qed.

Lemma config_fresh (st : process) :
  cache (config_cache st) = None ->
  config st
  = (length (heap st),
     {| heap := heap st ++ [Config (CONFIG_PATH (vars st))];
        vars := vars st;
        config_cache := {| cache := Some (length (heap st));
                           hits := hits (config_cache st);
                           misses := S (misses (config_cache st)) |};
        api_cache := api_cache st |}).
Proof. intros H. unfold config, lru_cache. rewrite H. reflexivity. Qed.

Lemma api_cached (st : process) (c : addr) :
  cache (api_cache st) = Some c ->
  api st
  = (c, set_api_cache {| cache := Some c; hits := S (hits (api_cache st));
                         misses := misses (api_cache st) |} st).
Proof. intros H. unfold api, lru_cache. rewrite H. reflexivity. Qed.

(** The first call of api() when config() has been called before: the
    client and its TokenAuth are built, the latter on the cached Config. *)
Lemma api_fresh_config_cached (st : process) (c : addr) :
  cache (api_cache st) = None -> cache (config_cache st) = Some c ->
  api st
  = (length (heap st),
     {| heap := heap st ++
          [HttpClient (BASE_URL (vars st)) (session (vars st))
             [set_headers (Some HEADERS); set_auth (length (heap st) + 1)];
           TokenAuth (length (heap st)) c (params_of (vars st))];
        vars := vars st;
        config_cache := {| cache := Some c; hits := S (hits (config_cache st));
                           misses := misses (config_cache st) |};
        api_cache := {| cache := Some (length (heap st));
                        hits := hits (api_cache st);
                        misses := S (misses (api_cache st)) |} |}).
Proof.
  intros Ha Hc. unfold api, lru_cache. rewrite Ha.
  unfold api_body, new, call. cbn.
  rewrite alter_at_end. cbn.
  rewrite (config_cached _ c) by exact Hc. cbn.
  rewrite length_app. cbn.
  rewrite <- app_assoc. cbn. rewrite alter_at_end. reflexivity.
Qed.

(** The first call of api() before any call of config(): the Config is
    built on the way. *)
Lemma api_fresh_config_fresh (st : process) :
  cache (api_cache st) = None -> cache (config_cache st) = None ->
  api st
  = (length (heap st),
     {| heap := heap st ++
          [HttpClient (BASE_URL (vars st)) (session (vars st))
             [set_headers (Some HEADERS); set_auth (length (heap st) + 1 + 1)];
           Config (CONFIG_PATH (vars st));
           TokenAuth (length (heap st)) (length (heap st) + 1)
                     (params_of (vars st))];
        vars := vars st;
        config_cache := {| cache := Some (length (heap st) + 1);
                           hits := hits (config_cache st);
                           misses := S (misses (config_cache st)) |};
        api_cache := {| cache := Some (length (heap st));
                        hits := hits (api_cache st);
                        misses := S (misses (api_cache st)) |} |}).
Proof.
  intros Ha Hc. unfold api, lru_cache. rewrite Ha.
  unfold api_body, new, call. cbn.
  rewrite alter_at_end. cbn.
  rewrite config_fresh by exact Hc. cbn.
  rewrite !length_app. cbn.
  rewrite <- !app_assoc. cbn. rewrite alter_at_end. reflexivity.
Qed.

(** *** The caches between resets *)

Lemma step_keeps_config (a : action) (st : process) (c : addr) :
  is_clear a = false -> cache (config_cache st) = Some c ->
  cache (config_cache (snd (step a st))) = Some c.
Proof.
  intros Ha Hc. destruct a; try discriminate Ha; cbn.
  - rewrite (config_cached st c Hc). reflexivity.
  - destruct (cache (api_cache st)) as [x|] eqn:E.
    + rewrite (api_cached st x E). exact Hc.
    + rewrite (api_fresh_config_cached st c E Hc). reflexivity.
  - exact Hc.
Qed.

Lemma step_keeps_api (a : action) (st : process) (c : addr) :
  is_clear a = false -> cache (api_cache st) = Some c ->
  cache (api_cache (snd (step a st))) = Some c.
Proof.
  intros Ha Hc. destruct a; try discriminate Ha; cbn.
  - destruct (cache (config_cache st)) as [x|] eqn:E.
    + rewrite (config_cached st x E). exact Hc.
    + rewrite (config_fresh st E). exact Hc.
  - rewrite (api_cached st c Hc). reflexivity.
  - exact Hc.
Qed.

(** A call leaves its result in the cache. *)
Lemma step_config_result (st : process) :
  cache (config_cache (snd (step call_config st))) = fst (step call_config st).
Proof.
  cbn. destruct (cache (config_cache st)) as [x|] eqn:E.
  - rewrite (config_cached st x E). reflexivity.
  - rewrite (config_fresh st E). reflexivity.
Qed.

Lemma step_api_result (st : process) :
  cache (api_cache (snd (step call_api st))) = fst (step call_api st).
Proof.
  cbn. destruct (cache (api_cache st)) as [x|] eqn:E.
  - rewrite (api_cached st x E). reflexivity.
  - destruct (cache (config_cache st)) as [y|] eqn:E'.
    + rewrite (api_fresh_config_cached st y E E'). reflexivity.
    + rewrite (api_fresh_config_fresh st E E'). reflexivity.
Qed.

Lemma run_cons (a : action) (acts : list action) (st : process) :
  run (a :: acts) st
  = ((a, fst (step a st)) :: fst (run acts (snd (step a st))),
     snd (run acts (snd (step a st)))).
Proof.
  cbn. destruct (step a st) as [r st1]. cbn.
  destruct (run acts st1) as [log st2]. reflexivity.
Qed.

Lemma run_keeps_config (acts : list action) (st : process) (c : addr) :
  no_clear acts = true -> cache (config_cache st) = Some c ->
  cache (config_cache (snd (run acts st))) = Some c.
Proof.
  revert st. induction acts as [|a acts IH]; intros st Hn Hc; [exact Hc|].
  cbn in Hn. apply andb_true_iff in Hn as [Ha Hn].
  apply negb_true_iff in Ha.
  rewrite run_cons. cbn. apply IH; [exact Hn|].
  apply step_keeps_config; assumption.
Qed.

Lemma run_keeps_api (acts : list action) (st : process) (c : addr) :
  no_clear acts = true -> cache (api_cache st) = Some c ->
  cache (api_cache (snd (run acts st))) = Some c.
Proof.
  revert st. induction acts as [|a acts IH]; intros st Hn Hc; [exact Hc|].
  cbn in Hn. apply andb_true_iff in Hn as [Ha Hn].
  apply negb_true_iff in Ha.
  rewrite run_cons. cbn. apply IH; [exact Hn|].
  apply step_keeps_api; assumption.
Qed.

(** Without a reset, whatever a call returned is what the cache holds in
    the end. *)
Lemma run_config_results (acts : list action) (st : process) (r : addr) :
  no_clear acts = true ->
  In (call_config, Some r) (fst (run acts st)) ->
  cache (config_cache (snd (run acts st))) = Some r.
Proof.
  revert st. induction acts as [|a acts IH]; intros st Hn Hin; [destruct Hin|].
  cbn in Hn. apply andb_true_iff in Hn as [Ha Hn].
  rewrite run_cons in *. cbn in *. destruct Hin as [Hin|Hin].
  - injection Hin as -> Hr. apply run_keeps_config; [exact Hn|].
    rewrite <- Hr. apply step_config_result.
  - apply IH; assumption.
Qed.

Lemma run_api_results (acts : list action) (st : process) (r : addr) :
  no_clear acts = true ->
  In (call_api, Some r) (fst (run acts st)) ->
  cache (api_cache (snd (run acts st))) = Some r.
Proof.
  revert st. induction acts as [|a acts IH]; intros st Hn Hin; [destruct Hin|].
  cbn in Hn. apply andb_true_iff in Hn as [Ha Hn].
  rewrite run_cons in *. cbn in *. destruct Hin as [Hin|Hin].
  - injection Hin as -> Hr. apply run_keeps_api; [exact Hn|].
    rewrite <- Hr. apply step_api_result.
  - apply IH; assumption.
Qed.

(** *** The evaluations counted *)

Lemma step_counted (a : action) (st : process) :
  counted (config_cache st) = true -> counted (api_cache st) = true ->
  counted (config_cache (snd (step a st))) = true /\
  counted (api_cache (snd (step a st))) = true.
Proof.
  intros Hc Ha. destruct a; cbn.
  - destruct (cache (config_cache st)) as [x|] eqn:E.
    + rewrite (config_cached st x E). split; [|exact Ha].
      unfold counted in *. rewrite E in Hc. exact Hc.
    + rewrite (config_fresh st E). split; [|exact Ha].
      unfold counted in *. rewrite E in Hc. cbn.
      apply Nat.eqb_eq in Hc. rewrite Hc. reflexivity.
  - destruct (cache (api_cache st)) as [x|] eqn:E.
    + rewrite (api_cached st x E). split; [exact Hc|].
      unfold counted in *. rewrite E in Ha. exact Ha.
    + assert (misses (api_cache st) = 0) as Ma.
      { unfold counted in Ha. rewrite E in Ha. apply Nat.eqb_eq, Ha. }
      destruct (cache (config_cache st)) as [y|] eqn:E'.
      * rewrite (api_fresh_config_cached st y E E').
        unfold counted in *. cbn. rewrite Ma. rewrite E' in Hc.
        split; [exact Hc | reflexivity].
      * rewrite (api_fresh_config_fresh st E E').
        unfold counted in *. cbn. rewrite Ma. rewrite E' in Hc.
        apply Nat.eqb_eq in Hc. rewrite Hc. split; reflexivity.
  - split; assumption.
  - split; [reflexivity | exact Ha].
  - split; [exact Hc | reflexivity].
Qed.

Lemma run_counted (acts : list action) (st : process) :
  counted (config_cache st) = true -> counted (api_cache st) = true ->
  counted (config_cache (snd (run acts st))) = true /\
  counted (api_cache (snd (run acts st))) = true.
Proof.
  revert st. induction acts as [|a acts IH]; intros st Hc Ha; [split; assumption|].
  rewrite run_cons. cbn.
  destruct (step_counted a st Hc Ha) as [Hc' Ha']. apply IH; assumption.
Qed.

Lemma counted_misses (c : lru) : counted c = true -> misses c <= 1.
Proof.
  unfold counted. destruct (cache c); intros H; apply Nat.eqb_eq in H; lia.
Qed.

(** *** The cached objects *)

#[local] Arguments cached : simpl never.

Lemma is_config_inv (o : option obj) :
  is_config o = true -> exists p, o = Some (Config p).
Proof. destruct o as [[]|]; try discriminate. intros _. eexists. reflexivity. Qed.


Lemma cached_app (test : option obj -> bool) (c : lru) (h l : list obj) :
  test None = false -> cached test c h = true -> cached test c (h ++ l) = true.
Proof.
  unfold cached. intros Hn H. destruct (cache c) as [a|]; [|reflexivity].
  destruct (h !! a) as [o|] eqn:E; [|congruence].
  rewrite (lookup_app_l_Some h l a o E). exact H.
Qed.

Lemma cached_valid (test : option obj -> bool) (c : lru) (h : list obj) (a : addr) :
  test None = false -> cached test c h = true -> cache c = Some a ->
  a < length h.
Proof.
  unfold cached. intros Hn H E. rewrite E in H.
  apply lookup_lt_is_Some. destruct (h !! a); [eauto | congruence].
Qed.

Lemma cached_hit (test : option obj -> bool) (c : lru) (h : list obj)
    (a n m : nat) :
  cache c = Some a -> cached test c h = true ->
  cached test {| cache := Some a; hits := n; misses := m |} h = true.
Proof. unfold cached. intros ->. cbn. trivial. Qed.

Lemma lookup_at_end (h : list obj) (o : obj) (l : list obj) :
  (h ++ o :: l) !! length h = Some o.
Proof. rewrite lookup_app_r by lia. rewrite Nat.sub_diag. reflexivity. Qed.

Lemma wf_step (a : action) (st : process) :
  wf st = true -> wf (snd (step a st)) = true.
Proof.
  unfold wf. intros H. apply andb_true_iff in H as [Hc Ha].
  apply andb_true_iff. destruct a; cbn.
  - destruct (cache (config_cache st)) as [x|] eqn:E.
    + rewrite (config_cached st x E). cbn. split; [|exact Ha].
      apply (cached_hit _ _ _ x _ _ E Hc).
    + rewrite (config_fresh st E). cbn. split.
      * unfold cached. cbn. rewrite lookup_at_end. reflexivity.
      * apply cached_app; [reflexivity | exact Ha].
  - destruct (cache (api_cache st)) as [x|] eqn:E.
    + rewrite (api_cached st x E). cbn. split; [exact Hc|].
      apply (cached_hit _ _ _ x _ _ E Ha).
    + destruct (cache (config_cache st)) as [y|] eqn:E'.
      * rewrite (api_fresh_config_cached st y E E'). cbn. split.
        -- apply cached_app; [reflexivity|].
           apply (cached_hit _ _ _ y _ _ E' Hc).
        -- unfold cached. cbn. rewrite lookup_at_end. reflexivity.
      * rewrite (api_fresh_config_fresh st E E'). cbn. split.
        -- unfold cached. cbn.
           rewrite (lookup_app_r (heap st)) by lia.
           replace (length (heap st) + 1 - length (heap st)) with 1 by lia.
           reflexivity.
        -- unfold cached. cbn. rewrite lookup_at_end. reflexivity.
  - split; assumption.
  - split; [reflexivity | exact Ha].
  - split; [exact Hc | reflexivity].
Qed.

Lemma wf_run (acts : list action) (st : process) :
  wf st = true -> wf (snd (run acts st)) = true.
Proof.
  revert st. induction acts as [|a acts IH]; intros st H; [exact H|].
  rewrite run_cons. cbn. apply IH, wf_step, H.
Qed.

(** After a reset the call builds an object at an address that was not in
    use, so it is none of the objects handed out before. *)
Lemma config_after_clear (st : process) :
  let '(c, st') := config (cache_clear set_config_cache st) in
  c = length (heap st) /\ is_config (heap st' !! c) = true.
Proof.
  rewrite config_fresh by reflexivity. cbn.
  split; [reflexivity|]. rewrite lookup_at_end. reflexivity.
Qed.

Lemma api_after_clear (st : process) :
  let '(a, st') := api (cache_clear set_api_cache st) in
  a = length (heap st) /\ is_client (heap st' !! a) = true.
Proof.
  destruct (cache (config_cache st)) as [y|] eqn:E.
  - rewrite (api_fresh_config_cached _ y) by (reflexivity || exact E). cbn.
    split; [reflexivity|]. rewrite lookup_at_end. reflexivity.
  - rewrite api_fresh_config_fresh by (reflexivity || exact E). cbn.
    split; [reflexivity|]. rewrite lookup_at_end. reflexivity.
Qed.

(** C8: in a process that calls config() and api() in any order and any
    number of times, and assigns to the module variables in between, each
    of the two bodies is evaluated once at most, and all the calls of one
    function return the same object.  After cache_clear() the next call
    builds a new object, which is none of those returned before. *)
Theorem factories_memoized (home : string) (acts : list action) :
  no_clear acts = true ->
  let '(log, st) := run acts (initial home) in
  (misses (config_cache st) <= 1 /\ misses (api_cache st) <= 1) /\
  (forall r r', In (call_config, Some r) log ->
                In (call_config, Some r') log -> r = r') /\
  (forall r r', In (call_api, Some r) log ->
                In (call_api, Some r') log -> r = r') /\
  (let '(c, st') := config (cache_clear set_config_cache st) in
   is_config (heap st' !! c) = true /\ heap st !! c = None /\
   forall r, In (call_config, Some r) log -> c <> r) /\
  (let '(a, st') := api (cache_clear set_api_cache st) in
   is_client (heap st' !! a) = true /\ heap st !! a = None /\
   forall r, In (call_api, Some r) log -> a <> r).
Proof.
  intros Hn.
  pose proof (run_config_results acts (initial home)) as Rc.
  pose proof (run_api_results acts (initial home)) as Ra.
  pose proof (wf_run acts (initial home) eq_refl) as W.
  pose proof (run_counted acts (initial home) eq_refl eq_refl) as [Cc Ca].
  destruct (run acts (initial home)) as [log st].
  cbn [fst snd] in Rc, Ra, W, Cc, Ca.
  unfold wf in W. apply andb_true_iff in W as [Wc Wa].
  split; [split; apply counted_misses; assumption|].
  split; [intros r r' H H'; pose proof (Rc r Hn H); pose proof (Rc r' Hn H');
          congruence|].
  split; [intros r r' H H'; pose proof (Ra r Hn H); pose proof (Ra r' Hn H');
          congruence|].
  split.
  - pose proof (config_after_clear st) as F.
    destruct (config (cache_clear set_config_cache st)) as [c st'].
    destruct F as [-> F]. split; [exact F|].
    split; [apply lookup_ge_None; lia|].
    intros r H.
    pose proof (cached_valid is_config _ _ r eq_refl Wc (Rc r Hn H)). lia.
  - pose proof (api_after_clear st) as F.
    destruct (api (cache_clear set_api_cache st)) as [a st'].
    destruct F as [-> F]. split; [exact F|].
    split; [apply lookup_ge_None; lia|].
    intros r H.
    pose proof (cached_valid is_client _ _ r eq_refl Wa (Ra r Hn H)). lia.
Qed.

(** The sample program: two calls of each function around a sign-in. *)
Lemma factories_memoized_witness :
  no_clear samples.calls = true /\
  let '(log, st) := run samples.calls (initial "/home/user") in
  (misses (config_cache st) <= 1 /\ misses (api_cache st) <= 1) /\
  (forall r r', In (call_api, Some r) log ->
                In (call_api, Some r') log -> r = r').
Proof.
  split; [reflexivity|].
  pose proof (factories_memoized "/home/user" samples.calls eq_refl) as H.
  destruct (run samples.calls (initial "/home/user")) as [log st].
  destruct H as (H1 & _ & H3 & _). split; [exact H1 | exact H3].
Defined.

Example calls_log :
  fst (run samples.calls (initial "/home/user"))
  = [(call_api, Some 1); (call_config, Some 2);
     (assign samples.credentials, None);
     (call_api, Some 1); (call_config, Some 2)].
Proof. reflexivity. Qed.

(** The client keeps the credentials of the first call. *)
Example calls_heap :
  heap (snd (run samples.calls (initial "/home/user")))
  = [Session;
     HttpClient "https://api-v2launch.trakt.tv/" 0
       [set_headers (Some HEADERS); set_auth 3];
     Config "/home/user/.pytrakt.json";
     TokenAuth 1 2 (params_of (vars (initial "/home/user")))].
Proof. reflexivity. Qed.

(** *** The default headers *)



End CoreFacts.

(** ** More of the error taxonomy *)

Module ErrorExtras.
Import errors hierarchy.

(** *** The conversion of the retry-after header *)





Lemma lstrip_blank (l : list ascii) : all_space l = true -> lstrip l = [].
Proof.
  induction l as [|c l IH]; [reflexivity|].
  simpl. intros H. apply andb_true_iff in H as [Hc Hl].
  rewrite Hc. apply IH, Hl.
Qed.

Lemma int_str_blank (v : string) :
  all_space (list_ascii_of_string v) = true -> int_str v = Raise ValueError.
Proof. intros H. unfold int_str. rewrite (lstrip_blank _ H). reflexivity. Qed.



(** int() of a header fails with a ValueError only. *)
Lemma int_str_raises (v : string) (e : exn) :
  int_str v = Raise e -> e = ValueError.
Proof.
  unfold int_str.
  match goal with
  | |- match ?x with _ => _ end = _ -> _ => destruct x
  end; intros H; [discriminate | congruence].
Qed.



(** X2: the default of retry_after stands in for an absent header only: a
    header that is present but empty, or made of whitespace, raises
    ValueError. *)
Theorem retry_after_blank (r : Response) (v : string) :
  headers r !! "retry-after" = Some v ->
  all_space (list_ascii_of_string v) = true ->
  (self ← construct RateLimitException (Some r); getattr self "retry_after")
  = Raise ValueError.
Proof.
  intros H Hv.
  rewrite ErrorFacts.retry_after_int, H, (int_str_blank v Hv). reflexivity.
Qed.

Lemma retry_after_blank_witness :
  (self ← construct RateLimitException
            (Some (samples.with_headers {[ "retry-after" := "" ]}));
   getattr self "retry_after") = Raise ValueError.
Proof.
  apply (retry_after_blank
           (samples.with_headers {[ "retry-after" := "" ]}) "");
    reflexivity.
Defined.



(** X4: the account-limit error inherits retry_after and details from the
    rate-limit error: built from the same response (or from none), the two
    give the same result for either attribute. *)
Theorem account_limit_inherits (resp : option Response) :
  (self ← construct AccountLimitExceeded resp; getattr self "retry_after")
  = (self ← construct RateLimitException resp; getattr self "retry_after") /\
  (self ← construct AccountLimitExceeded resp; getattr self "details")
  = (self ← construct RateLimitException resp; getattr self "details").
Proof. split; reflexivity. Qed.

(** *** Which class has which attribute *)

Lemma construct_refresh (r : Response) (self : instance) :
  construct OAuthRefreshException (Some r) = Ok self ->
  exists body,
    json r = Ok body /\
    self = {| ob_type := OAuthRefreshException; response := Some r;
              details := None; data := Some body |}.
Proof.
  unfold construct. cbn -[json].
  unfold OAuthRefreshException__init__. cbn -[json].
  destruct (json r) as [body|e]; cbn; intros H; [|discriminate].
  injection H as <-. exists body. split; reflexivity.
Qed.

Lemma retry_after_outcome (self : instance) (r : Response) :
  response self = Some r ->
  (exists n, RateLimitException_retry_after self = Ok (Int n)) \/
  RateLimitException_retry_after self = Raise ValueError.
Proof.
  intros H. unfold RateLimitException_retry_after, self_response.
  rewrite H. cbn.
  destruct (headers r !! "retry-after") as [v|]; cbn; [|left; eexists; reflexivity].
  destruct (int_str v) as [n|e] eqn:E; cbn; [left; eexists; reflexivity|].
  apply int_str_raises in E. subst e. right. reflexivity.
Qed.

Lemma details_outcome (self : instance) (r : Response) :
  response self = Some r -> exists v, RateLimitException_details self = Ok v.
Proof.
  intros H. unfold RateLimitException_details, self_response.
  rewrite H. cbn -[Json.loads ustr_of_string].
  destruct (Json.loads _) as [v|e] eqn:E; [eexists; reflexivity|].
  apply JsonFacts.loads_raises in E. subst e. eexists. reflexivity.
Qed.

Lemma getitem_outcome (body : object) (key : string) (e : exn) :
  getitem body key = Raise e -> e = KeyError \/ e = TypeError.
Proof.
  unfold getitem. destruct body; try (intros H; right; congruence).
  destruct (Json.dict_get _ _); intros H; [discriminate | left; congruence].
Qed.

(** X5: on an error built from a response, an attribute that the class
    neither defines nor inherits raises AttributeError, and only such an
    attribute does: retry_after lives on the rate-limit and account-limit
    errors, account_limit on the account-limit error, error_message on the
    internal-server error, error and error_description on the refresh error,
    and details on the rate-limit, account-limit and bad-response errors. *)
Theorem attribute_owners (c : cls) (r : Response) (self : instance) :
  construct c (Some r) = Ok self ->
  (getattr self "retry_after" = Raise AttributeError <->
   c <> RateLimitException /\ c <> AccountLimitExceeded) /\
  (getattr self "account_limit" = Raise AttributeError <->
   c <> AccountLimitExceeded) /\
  (getattr self "error_message" = Raise AttributeError <->
   c <> TraktInternalException) /\
  (getattr self "error" = Raise AttributeError <->
   c <> OAuthRefreshException) /\
  (getattr self "error_description" = Raise AttributeError <->
   c <> OAuthRefreshException) /\
  (getattr self "details" = Raise AttributeError <->
   c <> RateLimitException /\ c <> AccountLimitExceeded /\
   c <> BadResponseException).
Proof.
  intros H.
  assert (forall x : instance, response x = Some r ->
            Data <$> RateLimitException_retry_after x <> Raise AttributeError)
    as Hretry.
  { intros x Hx E. destruct (retry_after_outcome x r Hx) as [[n Hn]|Hn];
      rewrite Hn in E; discriminate E. }
  assert (forall x : instance, response x = Some r ->
            Data <$> RateLimitException_details x <> Raise AttributeError)
    as Hdetails.
  { intros x Hx E. destruct (details_outcome x r Hx) as [v Hv].
    rewrite Hv in E. discriminate E. }
  assert (forall body key,
            Data <$> getitem body key <> Raise (A:=value) AttributeError)
    as Hitem.
  { intros body key E. destruct (getitem body key) as [v|e] eqn:G;
      [discriminate E|].
    apply getitem_outcome in G. cbn in E. destruct G; subst e; discriminate E. }
  destruct c;
    try (cbn in H; injection H as <-;
         repeat split; intros; try discriminate; try reflexivity;
         try (exfalso; tauto)).
  all: try match goal with
       | E : getattr _ "retry_after" = Raise AttributeError |- _ =>
           exfalso; revert E; apply Hretry; reflexivity
       | E : getattr _ "details" = Raise AttributeError |- _ =>
           exfalso; revert E; apply Hdetails; reflexivity
       | E : getattr _ _ = Raise AttributeError |- _ =>
           exfalso; revert E; cbn; destruct (headers r !! _); discriminate
       end.
  destruct (construct_refresh r self H) as (body & _ & ->).
  repeat split; intros; try discriminate; try reflexivity;
    try (exfalso; tauto);
    match goal with
    | E : getattr _ _ = Raise AttributeError |- _ =>
        exfalso; revert E; apply Hitem
    end.
Qed.

Lemma attribute_owners_witness :
  getattr {| ob_type := NotFoundException;
             response := Some samples.account_limited;
             details := None; data := None |} "account_limit"
  = Raise AttributeError.
Proof.
  apply (proj2 (proj1 (proj2 (attribute_owners NotFoundException
                                samples.account_limited _ eq_refl)))).
  discriminate.
Defined.

(** X6: an error built without a response (the default of the parameter)
    has no headers to read: on every class, retry_after, account_limit and
    error_message raise AttributeError, and so does details except on the
    bad-response error; the handler in details catches JSONDecodeError only.
    The refresh error cannot be built at all. *)
Theorem without_response (c : cls) :
  construct OAuthRefreshException None = Raise AttributeError /\
  (c <> OAuthRefreshException ->
   (self ← construct c None; getattr self "retry_after")
   = Raise AttributeError /\
   (self ← construct c None; getattr self "account_limit")
   = Raise AttributeError /\
   (self ← construct c None; getattr self "error_message")
   = Raise AttributeError /\
   (c <> BadResponseException ->
    (self ← construct c None; getattr self "details")
    = Raise AttributeError)).
Proof.
  split; [reflexivity|].
  intros Hc. destruct c; try contradiction;
    (repeat split; try reflexivity; intros Hb; try contradiction; reflexivity).
Qed.

Lemma without_response_witness :
  (self ← construct RateLimitException None; getattr self "details")
  = Raise AttributeError.
Proof.
  apply (without_response RateLimitException); discriminate.
Defined.

(** *** The refresh error on an unexpected body *)

(** X7: the refresh error is built from any body that decodes, and a body
    without the expected entries fails on access only: when the body is not
    a JSON object, error and error_description raise TypeError; when it is
    an object without the name, the attribute of that name raises KeyError,
    whatever the other one does. *)
Theorem refresh_error_access (r : Response) (body : object) :
  json r = Ok body ->
  ((forall d, body <> Dict d) ->
   (self ← construct OAuthRefreshException (Some r); getattr self "error")
   = Raise TypeError /\
   (self ← construct OAuthRefreshException (Some r);
    getattr self "error_description") = Raise TypeError) /\
  (forall d, body = Dict d ->
   (Json.dict_get d (ustr_of_string "error") = None ->
    (self ← construct OAuthRefreshException (Some r); getattr self "error")
    = Raise KeyError) /\
   (Json.dict_get d (ustr_of_string "error_description") = None ->
    (self ← construct OAuthRefreshException (Some r);
     getattr self "error_description") = Raise KeyError)).
Proof.
  intros H. rewrite (ErrorFacts.refresh_error_built r body H).
  split.
  - intros Hd. destruct body; try (split; reflexivity).
    exfalso. eapply Hd. reflexivity.
  - intros d ->. split; intros Hk; cbn -[ustr_of_string];
      unfold OAuthRefreshException_error,
        OAuthRefreshException_error_description, getitem;
      cbn -[ustr_of_string]; rewrite Hk; reflexivity.
Qed.

(** A body that is a JSON list, and one that is an empty object. *)
Lemma refresh_error_access_witness :
  (self ← construct OAuthRefreshException (Some (samples.with_body "[]"));
   getattr self "error") = Raise TypeError /\
  (self ← construct OAuthRefreshException (Some (samples.with_body "{}"));
   getattr self "error") = Raise KeyError.
Proof.
  split.
  - apply (proj1 (refresh_error_access (samples.with_body "[]") (List_ [])
                    eq_refl)).
    discriminate.
  - apply (proj2 (refresh_error_access (samples.with_body "{}") (Dict [])
                    eq_refl) [] eq_refl).
    reflexivity.
Defined.

(** *** The classes among themselves *)

(** X8: which except clause catches which error: a class is a subclass of
    another exactly when the two are the same, or the other is the base
    class of the module, or the pair is the refresh error under the OAuth
    error, or the account-limit error under the rate-limit error. *)
Theorem catch_relation (c d : cls) :
  issubclass_cls c d = true <->
  c = d \/ d = TraktException \/
  (c = OAuthRefreshException /\ d = OAuthException) \/
  (c = AccountLimitExceeded /\ d = RateLimitException).
Proof.
  split.
  - destruct c, d; intros H; vm_compute in H; try discriminate H;
      first [ left; reflexivity
            | right; left; reflexivity
            | right; right; left; split; reflexivity
            | right; right; right; split; reflexivity ].
  - intros H. destruct c, d; try reflexivity; exfalso;
      destruct H as [H|[H|[[H1 H2]|[H1 H2]]]]; discriminate.
Qed.

Lemma construct_type (c : cls) (resp : option Response) (self : instance) :
  construct c resp = Ok self -> ob_type self = c.
Proof.
  destruct c; try (cbn; intros H; injection H as <-; reflexivity).
  unfold construct. cbn -[json].
  unfold OAuthRefreshException__init__. cbn -[json].
  destruct resp as [r|]; cbn -[json]; [|discriminate].
  destruct (json r); cbn; intros H; [|discriminate].
  injection H as <-. reflexivity.
Qed.

(** The class attributes of an instance are those of its class. *)
Lemma getattr_class (self : instance) (name : string) :
  name = "http_code" \/ name = "message" ->
  getattr self name
  = getattr {| ob_type := ob_type self; response := None;
               details := None; data := None |} name.
Proof.
  destruct self as [c resp dt da]. intros [->| ->]; destruct c; reflexivity.
Qed.

(** X9: the http_code tells the classes apart, with one exception: two
    errors with the same http_code are of the same class, or one is the
    OAuth error and the other the refresh error, which inherits its 401. *)
Theorem http_code_tells_class (c c' : cls) (resp resp' : option Response)
    (self self' : instance) :
  construct c resp = Ok self -> construct c' resp' = Ok self' ->
  getattr self "http_code" = getattr self' "http_code" ->
  c = c' \/
  (c = OAuthException /\ c' = OAuthRefreshException) \/
  (c = OAuthRefreshException /\ c' = OAuthException).
Proof.
  intros H H' E.
  apply construct_type in H. apply construct_type in H'.
  rewrite (getattr_class self), (getattr_class self') in E by (left; reflexivity).
  rewrite H, H' in E. clear H H'.
  destruct c, c'; vm_compute in E; try discriminate E;
    first [ left; reflexivity
          | right; left; split; reflexivity
          | right; right; split; reflexivity ].
Qed.

Lemma http_code_tells_class_witness :
  NotFoundException = NotFoundException \/
  (NotFoundException = OAuthException /\
   NotFoundException = OAuthRefreshException) \/
  (NotFoundException = OAuthRefreshException /\
   NotFoundException = OAuthException).
Proof.
  apply (http_code_tells_class NotFoundException NotFoundException
           None (Some samples.rate_limited) _ _ eq_refl eq_refl).
  reflexivity.
Defined.

(** X10: str() of an error is the message of its class, a text that is not
    empty, for every class but the base class of the module: its message is
    None, and str() of it raises TypeError. *)
Theorem str_of_error (c : cls) (resp : option Response) (self : instance) :
  construct c resp = Ok self ->
  (c = TraktException -> builtin_str self = Raise TypeError) /\
  (c <> TraktException ->
   exists text,
     builtin_str self = Ok text /\ text <> [] /\
     getattr self "message" = Ok (Data (Str text))).
Proof.
  intros H. apply construct_type in H.
  unfold builtin_str, TraktException__str__.
  rewrite (getattr_class self) by (right; reflexivity). rewrite H. clear H.
  split.
  - intros ->. reflexivity.
  - intros Hc. destruct c; try contradiction;
      (eexists; split; [reflexivity | split; [discriminate | reflexivity]]).
Qed.

Lemma str_of_error_witness :
  builtin_str {| ob_type := TraktUnavailable; response := None;
                 details := None; data := None |}
  = Ok (ustr_of_string "Trakt Unavailable - server overloaded").
Proof.
  destruct (proj2 (str_of_error TraktUnavailable None _ eq_refl))
    as (text & H & _); [discriminate|].
  rewrite H. vm_compute in H. injection H as <-. reflexivity.
Defined.

(** *** The exported names *)

(** X11: __all__ of the errors module names the classes of the module and
    nothing else, each once, and every name is bound: a star import
    succeeds and brings in the sixteen classes. *)
Theorem errors_all_names_the_classes :
  import_star errors_names.bound errors_names.__all__
  = Ok errors_names.__all__ /\
  NoDup errors_names.__all__ /\
  forall name, name ∈ errors_names.__all__ <-> exists c, class_name c = name.
Proof.
  split; [vm_compute; reflexivity|].
  split; [apply (bool_decide_unpack _); vm_compute; exact I|].
  assert (Forall (fun name => name ∈ map class_name classes)
                 errors_names.__all__) as Hall
    by (apply (bool_decide_unpack _); vm_compute; exact I).
  intros name. split.
  - intros H. rewrite Forall_forall in Hall.
    apply Hall in H. apply list_elem_of_fmap_1 in H as (c & -> & _).
    exists c. reflexivity.
  - intros [c <-]. destruct c;
      apply (bool_decide_unpack _); vm_compute; exact I.
Qed.

(** X12: __all__ of the core module names REDIRECT_URI, which the module
    does not bind (it is a field of AuthConfig only), so a star import of
    the module raises AttributeError; every other name of __all__ is
    bound. *)
Theorem core_all_names_unbound :
  import_star core_names.bound core_names.__all__ = Raise AttributeError /\
  forall name, name ∈ core_names.__all__ ->
    (name ∉ core_names.bound <-> name = "REDIRECT_URI").
Proof.
  split; [vm_compute; reflexivity|].
  intros name H. unfold core_names.__all__ in H.
  repeat (apply elem_of_cons in H as [->|H];
          [apply (bool_decide_unpack _); vm_compute; exact I|]).
  apply elem_of_nil in H. contradiction.
Qed.

End ErrorExtras.

(** ** More of the memoized entry points *)

Module CoreExtras.
Import core history.

Local Open Scope nat_scope.
Local Open Scope list_scope.

Lemma lookup_app_at (h l : list obj) (k : nat) :
  (h ++ l) !! (length h + k) = l !! k.
Proof.
  rewrite lookup_app_r by lia.
  replace (length h + k - length h) with k by lia. reflexivity.
Qed.

(** The objects right after the body of api() ran: the client, the
    TokenAuth it was given, and the Config of that TokenAuth ([cfg.1]),
    which is the cached one when there was one. *)
Lemma api_fresh_objects (st : process) :
  cache (api_cache st) = None ->
  exists cfg : addr * addr,
    fst (api st) = length (heap st) /\
    heap (snd (api st)) !! length (heap st)
    = Some (HttpClient (BASE_URL (vars st)) (session (vars st))
              [set_headers (Some HEADERS); set_auth cfg.2]) /\
    heap (snd (api st)) !! cfg.2
    = Some (TokenAuth (length (heap st)) cfg.1 (params_of (vars st))) /\
    cache (config_cache (snd (api st))) = Some cfg.1 /\
    cache (api_cache (snd (api st))) = Some (length (heap st)) /\
    length (heap st) < length (heap (snd (api st))) /\
    match cache (config_cache st) with
    | Some c => cfg.1 = c
    | None => cfg.1 < length (heap (snd (api st)))
    end.
Proof.
  intros Ha. destruct (cache (config_cache st)) as [c|] eqn:Hc.
  - exists (c, length (heap st) + 1).
    rewrite (CoreFacts.api_fresh_config_cached st c Ha Hc). cbn.
    split; [reflexivity|].
    split; [apply CoreFacts.lookup_at_end|].
    split; [rewrite lookup_app_at; reflexivity|].
    repeat split. rewrite length_app. cbn. lia.
  - exists (length (heap st) + 1, length (heap st) + 1 + 1).
    rewrite (CoreFacts.api_fresh_config_fresh st Ha Hc). cbn.
    split; [reflexivity|].
    split; [apply CoreFacts.lookup_at_end|].
    split; [rewrite <- Nat.add_assoc, lookup_app_at; reflexivity|].
    repeat split; rewrite length_app; cbn; lia.
Qed.

Lemma auth_of_client (h : list obj) (client auth : addr) (b : string)
    (s : addr) (hd : option (gmap string string)) :
  h !! client = Some (HttpClient b s [set_headers hd; set_auth auth]) ->
  auth_of h client = h !! auth.
Proof. intros H. unfold auth_of. rewrite H. reflexivity. Qed.

(** *** Calls that hit the cache *)

(** X13: in any state of the process, a call of config() or api() that
    follows a call of the same function returns the same object and does
    nothing else: no object is built or changed and no module variable is
    read into anything; the call is counted as a hit. *)
Theorem second_call_only_counts (st : process) :
  (let '(c1, st1) := config st in
   let '(c2, st2) := config st1 in
   c2 = c1 /\ heap st2 = heap st1 /\ vars st2 = vars st1 /\
   api_cache st2 = api_cache st1 /\
   cache (config_cache st2) = Some c1 /\
   hits (config_cache st2) = S (hits (config_cache st1)) /\
   misses (config_cache st2) = misses (config_cache st1)) /\
  (let '(a1, st1) := api st in
   let '(a2, st2) := api st1 in
   a2 = a1 /\ heap st2 = heap st1 /\ vars st2 = vars st1 /\
   config_cache st2 = config_cache st1 /\
   cache (api_cache st2) = Some a1 /\
   hits (api_cache st2) = S (hits (api_cache st1)) /\
   misses (api_cache st2) = misses (api_cache st1)).
Proof.
  split.
  - pose proof (CoreFacts.step_config_result st) as R. cbn in R.
    destruct (config st) as [c1 st1]. cbn in R.
    rewrite (CoreFacts.config_cached st1 c1 R). repeat split.
  - pose proof (CoreFacts.step_api_result st) as R. cbn in R.
    destruct (api st) as [a1 st1]. cbn in R.
    rewrite (CoreFacts.api_cached st1 a1 R). repeat split.
Qed.

(** *** What the first call of api() fixes *)

(** X14: the client keeps what the module variables held when api() was
    first called: after any assignment to the module variables, api()
    returns the same client, still built on the BASE_URL and the session of
    the first call, and its TokenAuth still holds the credentials of the
    first call. *)
Theorem api_keeps_first_credentials (st : process) (g : globals) :
  cache (api_cache st) = None ->
  let '(client, st1) := api st in
  let '(client', st2) := api (set_vars g st1) in
  client' = client /\ heap st2 = heap st1 /\
  exists auth cfg,
    heap st2 !! client
    = Some (HttpClient (BASE_URL (vars st)) (session (vars st))
              [set_headers (Some HEADERS); set_auth auth]) /\
    auth_of (heap st2) client
    = Some (TokenAuth client cfg (params_of (vars st))).
Proof.
  intros Ha.
  destruct (api_fresh_objects st Ha) as ([cfg auth] & R & Hcl & Hau & _ & Hca & _).
  destruct (api st) as [client st1]. cbn [fst snd] in *. subst client.
  rewrite (CoreFacts.api_cached (set_vars g st1) (length (heap st)) Hca).
  split; [reflexivity|]. split; [reflexivity|].
  exists auth, cfg. cbn. split; [exact Hcl|].
  rewrite (auth_of_client _ _ _ _ _ _ Hcl). exact Hau.
Qed.

(** A fresh process that signs in after its first call of api(). *)
Lemma api_keeps_first_credentials_witness :
  let '(client, st1) := api (initial "/home/user") in
  let '(client', st2) := api (set_vars samples.credentials st1) in
  client' = client /\ heap st2 = heap st1 /\
  exists auth cfg,
    heap st2 !! client
    = Some (HttpClient (BASE_URL (vars (initial "/home/user")))
              (session (vars (initial "/home/user")))
              [set_headers (Some HEADERS); set_auth auth]) /\
    auth_of (heap st2) client
    = Some (TokenAuth client cfg (params_of (vars (initial "/home/user")))).
Proof.
  apply (api_keeps_first_credentials (initial "/home/user")
           samples.credentials).
  reflexivity.
Defined.

(** X15: the client and config() share one Config: when api() builds the
    client, the Config of the client's TokenAuth is the object that a call
    of config() returns from then on, whether it was built before api() or
    by it. *)
Theorem api_shares_config (st : process) :
  cache (api_cache st) = None ->
  let '(client, st1) := api st in
  let '(cfg, st2) := config st1 in
  exists params,
    auth_of (heap st2) client = Some (TokenAuth client cfg params) /\
    (forall c, cache (config_cache st) = Some c -> cfg = c).
Proof.
  intros Ha.
  destruct (api_fresh_objects st Ha)
    as ([cfg auth] & R & Hcl & Hau & Hcc & _ & _ & Hold).
  destruct (api st) as [client st1]. cbn [fst snd] in *. subst client.
  rewrite (CoreFacts.config_cached st1 cfg Hcc).
  exists (params_of (vars st)). cbn. split.
  - rewrite (auth_of_client _ _ _ _ _ _ Hcl). exact Hau.
  - intros c Hc. rewrite Hc in Hold. exact Hold.
Qed.

Lemma api_shares_config_witness :
  let '(client, st1) := api (initial "/home/user") in
  let '(cfg, st2) := config st1 in
  exists params,
    auth_of (heap st2) client = Some (TokenAuth client cfg params) /\
    (forall c, cache (config_cache (initial "/home/user")) = Some c -> cfg = c).
Proof. apply (api_shares_config (initial "/home/user")). reflexivity. Defined.

(** X16: the two caches are reset apart: after config.cache_clear() alone,
    config() builds a new Config, while api() still returns the old client,
    whose TokenAuth holds the Config of before, a different object. *)
Theorem clearing_config_leaves_client (st : process) :
  wf st = true -> cache (api_cache st) = None ->
  let '(client, st1) := api st in
  let '(cfg', st2) := config (cache_clear set_config_cache st1) in
  let '(client', st3) := api st2 in
  client' = client /\
  is_config (heap st3 !! cfg') = true /\
  exists cfg params,
    auth_of (heap st3) client = Some (TokenAuth client cfg params) /\
    cfg <> cfg'.
Proof.
  intros W Ha.
  destruct (api_fresh_objects st Ha)
    as ([cfg auth] & R & Hcl & Hau & Hcc & Hca & Hlen & Hold).
  assert (cfg < length (heap (snd (api st)))) as Hvalid.
  { cbn [fst] in Hold. destruct (cache (config_cache st)) as [c|] eqn:Hc;
      [|exact Hold].
    subst cfg. unfold wf in W. apply andb_true_iff in W as [Wc _].
    pose proof (CoreFacts.cached_valid is_config _ _ c eq_refl Wc Hc). lia. }
  destruct (api st) as [client st1]. cbn [fst snd] in *. subst client.
  rewrite CoreFacts.config_fresh by reflexivity.
  rewrite (CoreFacts.api_cached _ (length (heap st))) by exact Hca. cbn.
  split; [reflexivity|].
  split; [rewrite CoreFacts.lookup_at_end; reflexivity|].
  exists cfg, (params_of (vars st)). split; [|lia].
  assert ((heap st1 ++ [Config (CONFIG_PATH (vars st1))]) !! length (heap st)
          = Some (HttpClient (BASE_URL (vars st)) (session (vars st))
                    [set_headers (Some HEADERS); set_auth auth])) as Hcl'
    by (apply lookup_app_l_Some, Hcl).
  rewrite (auth_of_client _ _ _ _ _ _ Hcl').
  apply lookup_app_l_Some, Hau.
Qed.

Lemma clearing_config_leaves_client_witness :
  let '(client, st1) := api (initial "/home/user") in
  let '(cfg', st2) := config (cache_clear set_config_cache st1) in
  let '(client', st3) := api st2 in
  client' = client /\
  is_config (heap st3 !! cfg') = true /\
  exists cfg params,
    auth_of (heap st3) client = Some (TokenAuth client cfg params) /\
    cfg <> cfg'.
Proof.
  apply (clearing_config_leaves_client (initial "/home/user")); reflexivity.
Defined.

(** X20: a reset makes the next call read the module variables as they are
    then: after an assignment and cache_clear(), config() builds a Config
    on the CONFIG_PATH just assigned, and api() builds a client on the
    BASE_URL and the session just assigned, whose TokenAuth holds the
    credentials just assigned. *)
Theorem reset_reads_variables_anew (st : process) (g : globals) :
  (let '(c, st') := config (cache_clear set_config_cache (set_vars g st)) in
   heap st' !! c = Some (Config (CONFIG_PATH g)) /\ heap st !! c = None) /\
  (let '(client, st') := api (cache_clear set_api_cache (set_vars g st)) in
   heap st !! client = None /\
   exists auth cfg,
     heap st' !! client
     = Some (HttpClient (BASE_URL g) (session g)
               [set_headers (Some HEADERS); set_auth auth]) /\
     auth_of (heap st') client = Some (TokenAuth client cfg (params_of g))).
Proof.
  split.
  - rewrite CoreFacts.config_fresh by reflexivity. cbn.
    split; [apply CoreFacts.lookup_at_end | apply lookup_ge_None; lia].
  - destruct (api_fresh_objects (cache_clear set_api_cache (set_vars g st))
                eq_refl) as ([cfg auth] & R & Hcl & Hau & _).
    destruct (api (cache_clear set_api_cache (set_vars g st)))
      as [client st'].
    cbn [fst snd] in *. cbn in R, Hcl, Hau. subst client.
    split; [apply lookup_ge_None; lia|].
    exists auth, cfg. split; [exact Hcl|].
    rewrite (auth_of_client _ _ _ _ _ _ Hcl). exact Hau.
Qed.

(** *** The heap *)

Lemma step_keeps_objects (a : action) (st : process) :
  heap st `prefix_of` heap (snd (step a st)).
Proof.
  destruct a; cbn; try reflexivity.
  - destruct (cache (config_cache st)) as [c|] eqn:Hc.
    + rewrite (CoreFacts.config_cached st c Hc). reflexivity.
    + rewrite (CoreFacts.config_fresh st Hc). apply prefix_app_r. reflexivity.
  - destruct (cache (api_cache st)) as [x|] eqn:Ha.
    + rewrite (CoreFacts.api_cached st x Ha). reflexivity.
    + destruct (cache (config_cache st)) as [c|] eqn:Hc.
      * rewrite (CoreFacts.api_fresh_config_cached st c Ha Hc).
        apply prefix_app_r. reflexivity.
      * rewrite (CoreFacts.api_fresh_config_fresh st Ha Hc).
        apply prefix_app_r. reflexivity.
Qed.

(** X17: nothing the module does changes or removes an object that exists:
    over any sequence of calls, assignments and resets, the heap only grows
    at its end, so an object handed out once stays as it was; a reset only
    makes the cache forget it. *)
Theorem objects_are_kept (acts : list action) (st : process) :
  heap st `prefix_of` heap (snd (run acts st)) /\
  forall (a : addr) (o : obj),
    heap st !! a = Some o -> heap (snd (run acts st)) !! a = Some o.
Proof.
  assert (heap st `prefix_of` heap (snd (run acts st))) as P.
  { revert st. induction acts as [|a acts IH]; intros st; [reflexivity|].
    rewrite CoreFacts.run_cons. cbn.
    etransitivity; [apply step_keeps_objects | apply IH]. }
  split; [exact P|].
  intros a o H. eapply prefix_lookup_Some; eassumption.
Qed.

Lemma objects_are_kept_witness :
  heap (snd (run [call_api; clear_api; call_api] (initial "/home/user"))) !! 1
  = heap (snd (run [call_api] (initial "/home/user"))) !! 1.
Proof.
  apply (proj2 (objects_are_kept [clear_api; call_api]
                  (snd (run [call_api] (initial "/home/user"))))).
  reflexivity.
Defined.

(** X18: in every process, whatever was called, assigned or reset before,
    config() returns the address of a Config object. *)
Theorem config_returns_config (home : string) (acts : list action) :
  let '(c, st) := config (snd (run acts (initial home))) in
  is_config (heap st !! c) = true.
Proof.
  pose proof (CoreFacts.wf_run (call_config :: nil)
                (snd (run acts (initial home)))
                (CoreFacts.wf_run acts (initial home) eq_refl)) as W.
  pose proof (CoreFacts.step_config_result (snd (run acts (initial home)))) as R.
  rewrite CoreFacts.run_cons in W. cbn [snd run step] in W, R.
  destruct (config (snd (run acts (initial home)))) as [c st].
  cbn [fst snd] in W, R.
  unfold wf in W. apply andb_true_iff in W as [W _].
  unfold cached in W. rewrite R in W. exact W.
Qed.

(** *** The counters *)

Lemma step_api_counters (a : action) (st : process) :
  is_clear a = false ->
  hits (api_cache (snd (step a st))) + misses (api_cache (snd (step a st)))
  = hits (api_cache st) + misses (api_cache st)
    + (if is_call_api a then 1 else 0).
Proof.
  intros Hn. destruct a; try discriminate Hn; cbn.
  - destruct (cache (config_cache st)) as [c|] eqn:Hc.
    + rewrite (CoreFacts.config_cached st c Hc). cbn. lia.
    + rewrite (CoreFacts.config_fresh st Hc). cbn. lia.
  - destruct (cache (api_cache st)) as [x|] eqn:Ha.
    + rewrite (CoreFacts.api_cached st x Ha). cbn. lia.
    + destruct (cache (config_cache st)) as [c|] eqn:Hc.
      * rewrite (CoreFacts.api_fresh_config_cached st c Ha Hc). cbn. lia.
      * rewrite (CoreFacts.api_fresh_config_fresh st Ha Hc). cbn. lia.
  - lia.
Qed.

Lemma run_api_counters (acts : list action) (st : process) :
  no_clear acts = true ->
  hits (api_cache (snd (run acts st))) + misses (api_cache (snd (run acts st)))
  = hits (api_cache st) + misses (api_cache st) + api_calls acts.
Proof.
  revert st. induction acts as [|a acts IH]; intros st Hn; [cbn; lia|].
  cbn in Hn. apply andb_true_iff in Hn as [Ha Hn].
  apply negb_true_iff in Ha.
  rewrite CoreFacts.run_cons. cbn [snd].
  rewrite (IH _ Hn), (step_api_counters a st Ha).
  unfold api_calls. destruct a; try discriminate Ha; cbn; lia.
Qed.

Lemma run_api_called (acts : list action) (st : process) :
  no_clear acts = true -> 0 < api_calls acts ->
  exists r, cache (api_cache (snd (run acts st))) = Some r.
Proof.
  revert st. induction acts as [|a acts IH]; intros st Hn Hc;
    [cbn in Hc; lia|].
  cbn in Hn. apply andb_true_iff in Hn as [Ha Hn].
  rewrite CoreFacts.run_cons. cbn [snd].
  destruct (is_call_api a) eqn:E.
  - destruct a; try discriminate E.
    pose proof (CoreFacts.step_api_result st) as R.
    destruct (step call_api st) as [[r|] st1] eqn:S; cbn [fst snd] in *.
    + exists r. apply CoreFacts.run_keeps_api; assumption.
    + exfalso. cbn in S. destruct (api st). discriminate S.
  - apply IH; [exact Hn|]. unfold api_calls in *. cbn in Hc.
    rewrite E in Hc. exact Hc.
Qed.

(** X19: between resets the counters of the cache account for every call:
    in a process that has not reset a cache, the first call of api() is the
    only miss and every later call is a hit, so the misses are one (none
    before the first call) and the hits are the number of calls less one. *)
Theorem api_counters (home : string) (acts : list action) :
  no_clear acts = true ->
  let st := snd (run acts (initial home)) in
  misses (api_cache st) = Nat.min 1 (api_calls acts) /\
  hits (api_cache st) = api_calls acts - 1.
Proof.
  intros Hn. cbv zeta.
  pose proof (run_api_counters acts (initial home) Hn) as C. cbn in C.
  pose proof (CoreFacts.run_counted acts (initial home) eq_refl eq_refl)
    as [_ Ca].
  destruct (api_calls acts) as [|n] eqn:E.
  - cbn. lia.
  - destruct (run_api_called acts (initial home) Hn ltac:(lia)) as [r Hr].
    unfold counted in Ca. rewrite Hr in Ca. apply Nat.eqb_eq in Ca.
    cbn. lia.
Qed.

Lemma api_counters_witness :
  let st := snd (run samples.calls (initial "/home/user")) in
  misses (api_cache st) = 1 /\ hits (api_cache st) = 1.
Proof. apply (api_counters "/home/user" samples.calls). reflexivity. Defined.

End CoreExtras.
